(** * ACWR pipeline (app.py): a shallow embedding and its properties

    The program joins training-load records with a position registry,
    removes high outliers per player and metric, computes trailing 7- and
    28-row means, their ratio (ACWR), and keeps the latest row per player;
    a Dash callback then draws the chart.

    Conventions of the embedding:
    - a pandas frame is the list of its rows, in frame order; every row of
      the merged frame carries a unique index label, so that aligning a
      computed column on the index is aligning it on the row's place;
    - a float cell is an exact rational or NaN ([option Q], [None] = NaN);
      the ratio column also needs the two infinities ([xnum]).  Rounding,
      overflow and infinite values in the load file are outside the
      embedding, so only properties that do not rest on the laws of exact
      arithmetic are stated below;
    - a date is an integer day count, NaT is [None]. *)

From Stdlib Require Import String Ascii OrderedTypeEx.
From Stdlib Require Import List Bool Arith ZArith QArith Qround Lqa Lia.
From Stdlib Require Import Permutation Sorted.
Import ListNotations.

Local Open Scope string_scope.
Local Open Scope list_scope.
Local Open Scope Q_scope.

(** ** Cells *)

(** A float64 cell holding a finite value or NaN. *)
Definition cell := option Q.

Definition cell_sub (a b : cell) : cell :=
  match a, b with Some x, Some y => Some (x - y) | _, _ => None end.

Definition cell_add (a b : cell) : cell :=
  match a, b with Some x, Some y => Some (x + y) | _, _ => None end.

Definition cell_scale (k : Q) (a : cell) : cell :=
  match a with Some x => Some (k * x) | None => None end.

(** [a <= b] on floats: false as soon as one side is NaN. *)
Definition cell_le (a b : cell) : bool :=
  match a, b with Some x, Some y => Qle_bool x y | _, _ => false end.

(** ** Records *)

(** A row of MasterWorkload.csv. *)
Record LoadRecord := mkLoad {
  load_player : string;
  load_date : option Z;
  load_values : list (string * cell)
}.

(** A row of positions.csv. *)
Record PositionRecord := mkPos {
  pos_player : string;
  pos_position : option string
}.

(** A row of [merged_df]. *)
Record Row := mkRow {
  player_name : string;
  session_date : option Z;
  metric_values : list (string * cell);
  position : option string
}.

Fixpoint lookup {A : Type} (k : string) (l : list (string * A)) : option A :=
  match l with
  | [] => None
  | (k', v) :: l' => if String.eqb k k' then Some v else lookup k l'
  end.

(** [row[metric]]: the cell of a metric column; a row that the join filled
    with missing values has NaN there. *)
Definition col (metric : string) (r : Row) : cell :=
  match lookup metric (metric_values r) with
  | Some c => c
  | None => None
  end.

(** ** Record Joiner: [workload_df.merge(positions_df, on="Player Name", how="right")] *)

Definition join_row (p : PositionRecord) (l : LoadRecord) : Row :=
  mkRow (pos_player p) (load_date l) (load_values l) (pos_position p).

Definition unmatched_row (p : PositionRecord) : Row :=
  mkRow (pos_player p) None [] (pos_position p).

Definition merge (workload : list LoadRecord) (positions : list PositionRecord)
  : list Row :=
  flat_map
    (fun p =>
       match filter (fun l => String.eqb (load_player l) (pos_player p)) workload with
       | [] => [unmatched_row p]
       | ls => map (join_row p) ls
       end)
    positions.

(** ** Stable sorting *)

Section InsertionSort.
Context {A : Type} (leb : A -> A -> bool).

Fixpoint insert_sorted (x : A) (l : list A) : list A :=
  match l with
  | [] => [x]
  | y :: l' => if leb x y then x :: l else y :: insert_sorted x l'
  end.

Definition stable_sort (l : list A) : list A :=
  fold_right insert_sorted [] l.
End InsertionSort.

(** Dates ascending, NaT last ([na_position="last"]). *)
Definition date_leb (a b : option Z) : bool :=
  match a, b with
  | _, None => true
  | None, Some _ => false
  | Some x, Some y => Z.leb x y
  end.

(** The key of [sort_values(by=["Player Name", "Session Date"])]. *)
Definition row_leb (a b : Row) : bool :=
  if String.eqb (player_name a) (player_name b)
  then date_leb (session_date a) (session_date b)
  else String.leb (player_name a) (player_name b).

Definition sort_values_player_date (df : list Row) : list Row :=
  stable_sort row_leb df.

(** ** Outlier Bounder *)

Definition dropna (vs : list cell) : list Q :=
  flat_map (fun c => match c with Some x => [x] | None => [] end) vs.

(** Linear interpolation between the two order statistics around position
    [q * (n - 1)] of an ascending list [xs] of [n] values. *)
Definition interpolate (q : Q) (xs : list Q) (x0 : Q) : Q :=
  let n := length xs in
  let pos := q * inject_Z (Z.of_nat (n - 1)) in
  let lo := Z.to_nat (Qfloor pos) in
  let frac := pos - inject_Z (Qfloor pos) in
  let a := nth lo xs x0 in
  let b := nth (Nat.min (lo + 1) (n - 1)) xs x0 in
  a + (b - a) * frac.

(** [Series.quantile(q)]: missing cells are left out, the others sorted and
    interpolated; NaN when there is none. *)
Definition quantile (q : Q) (vs : list cell) : cell :=
  let xs := stable_sort Qle_bool (dropna vs) in
  match xs with
  | [] => None
  | x0 :: _ => Some (interpolate q xs x0)
  end.

(** Group keys in the order [groupby] yields them: distinct, ascending. *)
Fixpoint insert_key (k : string) (ks : list string) : list string :=
  match ks with
  | [] => [k]
  | k' :: ks' =>
      if String.eqb k k' then ks
      else if String.leb k k' then k :: ks
      else k' :: insert_key k ks'
  end.

Definition group_keys (df : list Row) : list string :=
  fold_right insert_key [] (map player_name df).

Definition get_group (df : list Row) (player : string) : list Row :=
  filter (fun r => String.eqb (player_name r) player) df.

Definition upper_bound (multiplier : Q) (vs : list cell) : cell :=
  let Q1 := quantile (1 # 4) vs in
  let Q3 := quantile (3 # 4) vs in
  let IQR := cell_sub Q3 Q1 in
  cell_add Q3 (cell_scale multiplier IQR).

(** The mask [group[metric] <= upper] applied to one group. *)
Definition bound_group (metric : string) (multiplier : Q) (group : list Row)
  : list Row :=
  let upper := upper_bound multiplier (map (col metric) group) in
  filter (fun r => cell_le (col metric r) upper) group.

(** [remove_extreme_highs(df, metric, multiplier)]: the bounded groups,
    concatenated in key order onto the empty [pd.DataFrame()].  A frame is
    its rows here; that a frame with no group at all comes back without
    columns, so that a later [groupby] on it fails, is left out. *)
Definition remove_extreme_highs (df : list Row) (metric : string)
  (multiplier : Q) : list Row :=
  flat_map (fun player => bound_group metric multiplier (get_group df player))
           (group_keys df).

Definition default_multiplier : Q := 5 # 2.

(** [for metric in metrics: merged_df = remove_extreme_highs(merged_df, metric, 2.5)] *)
Definition bound_all (metrics : list string) (df : list Row) : list Row :=
  fold_left (fun acc metric => remove_extreme_highs acc metric default_multiplier)
            metrics df.

(** ** Rolling Load Estimator *)

Definition Qsum (xs : list Q) : Q := fold_right Qplus 0 xs.

Definition mean (xs : list Q) : Q :=
  Qsum xs / inject_Z (Z.of_nat (length xs)).

(** The mean of a window with [min_periods=1]: missing cells are left out,
    and one present cell is enough for a value. *)
Definition nanmean (vs : list cell) : cell :=
  match dropna vs with
  | [] => None
  | xs => Some (mean xs)
  end.

(** The last [n] elements. *)
Definition lastn {A : Type} (n : nat) (l : list A) : list A :=
  skipn (length l - n) l.

(** [df.groupby("Player Name")[metric].rolling(window, min_periods=1).mean()
      .reset_index(0, drop=True)], read in frame order: the value at a row
    is the mean over the trailing window of this player's rows up to and
    including it.  [before] holds the rows of the frame above [df]. *)
Fixpoint rolling_mean (window : nat) (metric : string)
  (before df : list Row) : list cell :=
  match df with
  | [] => []
  | r :: rest =>
      let upto := before ++ [r] in
      nanmean (lastn window (map (col metric) (get_group upto (player_name r))))
      :: rolling_mean window metric upto rest
  end.

(** ** ACWR Ratio Calculator *)

(** A float64 result: finite, plus or minus infinity, or NaN. *)
Inductive xnum := Fin (q : Q) | PInf | NInf | NaN.

Definition Qlt_bool (x y : Q) : bool := negb (Qle_bool y x).

(** Float division of two columns' cells: division by zero raises nothing,
    it gives an infinity of the numerator's sign, and NaN for 0/0. *)
Definition divide (a c : cell) : xnum :=
  match a, c with
  | Some x, Some y =>
      if Qeq_bool y 0
      then if Qlt_bool 0 x then PInf
           else if Qlt_bool x 0 then NInf
           else NaN
      else Fin (x / y)
  | _, _ => NaN
  end.

(** The three columns [Acute_m], [Chronic_m] and [ACWR_m] of a metric [m],
    kept together under the metric's name. *)
Record Derived := mkDerived {
  Acute : cell;
  Chronic : cell;
  ACWR : xnum
}.

(** A row of [merged_df] once the derived columns are assigned. *)
Record WRow := mkW {
  w_row : Row;
  derived : list (string * Derived)
}.

(** One turn of the loop at lines 44-57: the three assignments for one metric. *)
Definition assign_columns (metric : string) (df : list WRow) : list WRow :=
  let rows := map w_row df in
  let acute := rolling_mean 7 metric [] rows in
  let chronic := rolling_mean 28 metric [] rows in
  map (fun '(w, (a, c)) =>
         mkW (w_row w) ((metric, mkDerived a c (divide a c)) :: derived w))
      (combine df (combine acute chronic)).

Definition add_acwr (metrics : list string) (df : list Row) : list WRow :=
  fold_left (fun acc metric => assign_columns metric acc) metrics
            (map (fun r => mkW r []) df).

(** ** Snapshot Selector *)

(** [groupby("Player Name").tail(1)]: the rows that are the last of their
    player, in frame order. *)
Fixpoint tail1 (df : list WRow) : list WRow :=
  match df with
  | [] => []
  | w :: rest =>
      if existsb (fun w' => String.eqb (player_name (w_row w'))
                                       (player_name (w_row w))) rest
      then tail1 rest
      else w :: tail1 rest
  end.

Definition wdate_leb (a b : WRow) : bool :=
  date_leb (session_date (w_row a)) (session_date (w_row b)).

(** [sort_values("Session Date")] uses the default sort kind, which does not
    promise to keep equal dates in their former order: the selector takes the
    sort as a parameter, and the properties below ask of it only that it
    returns its input rearranged by ascending date, NaT last. *)
Definition latest_df (sort_values_date : list WRow -> list WRow)
  (df : list WRow) : list WRow :=
  tail1 (sort_values_date df).

(** A sort that does keep equal dates in their former order. *)
Definition stable_sort_values_date (df : list WRow) : list WRow :=
  stable_sort wdate_leb df.

(** ** The pipeline, lines 15-64 *)

Definition metrics : list string := ["High Speed Running"; "DSL"].

Definition merged_df (ms : list string) (workload : list LoadRecord)
  (positions : list PositionRecord) : list WRow :=
  add_acwr ms (bound_all ms (sort_values_player_date (merge workload positions))).

Definition pipeline (sort_values_date : list WRow -> list WRow)
  (ms : list string) (workload : list LoadRecord)
  (positions : list PositionRecord) : list WRow :=
  latest_df sort_values_date (merged_df ms workload positions).

(** ** Presentation callback *)

Inductive Colour := blue | red | grey.

Definition xlt (x : xnum) (k : Q) : bool :=
  match x with Fin q => Qlt_bool q k | NInf => true | PInf | NaN => false end.

Definition xgt (x : xnum) (k : Q) : bool :=
  match x with Fin q => Qlt_bool k q | PInf => true | NInf | NaN => false end.

(** [lambda x: "blue" if x < 0.8 else ("red" if x > 1.5 else "grey")] *)
Definition bar_color (x : xnum) : Colour :=
  if xlt x (8 # 10) then blue else if xgt x (15 # 10) then red else grey.

(** One bar of the figure with the chronic marker drawn over it. *)
Record Bar := mkBar {
  bar_y : string;
  bar_x : cell;
  marker_color : Colour;
  chronic_line : cell
}.

Inductive outcome (A : Type) := Returned (a : A) | KeyError (column : string).
Arguments Returned {A} a.
Arguments KeyError {A} column.

(** [df[df["Position"] == selected_position]] *)
Definition position_is (selected : string) (w : WRow) : bool :=
  match position (w_row w) with
  | Some p => String.eqb p selected
  | None => false
  end.

(** [update_chart(selected_position, selected_metric)], over the two globals
    it reads: [ms] names the metrics whose derived columns the frame has, and
    [latest] is its rows.  A Python string is truthy when it is not empty. *)
Definition update_chart (ms : list string) (latest : list WRow)
  (selected_position : option string) (selected_metric : string)
  : outcome (list Bar) :=
  let df :=
    match selected_position with
    | Some p => if String.eqb p "" then latest else filter (position_is p) latest
    | None => latest
    end in
  if negb (existsb (String.eqb selected_metric) ms)
  then KeyError (String.append "Acute_" selected_metric)
  else
    let cells (w : WRow) : Derived :=
      match lookup selected_metric (derived w) with
      | Some d => d
      | None => mkDerived None None NaN
      end in
    let df :=
      filter (fun w => negb (match Acute (cells w), Chronic (cells w) with
                             | None, None => true
                             | _, _ => false
                             end)) df in
    Returned
      (map (fun w => mkBar (player_name (w_row w)) (Acute (cells w))
                           (bar_color (ACWR (cells w))) (Chronic (cells w)))
           df).

(** ** Notions used in the statements *)

(** Keys are kept strictly ascending. *)
Definition key_lt (a b : string) : Prop := String.leb a b = true /\ a <> b.

(** The rows one pass keeps. *)
Definition kept (df : list Row) (metric : string) (k : Q) (r : Row) : bool :=
  cell_le (col metric r)
          (upper_bound k (map (col metric) (get_group df (player_name r)))).

(** The player of the row is one of the keys. *)
Definition among (ks : list string) (r : Row) : bool :=
  existsb (String.eqb (player_name r)) ks.

(** The rows one pass drops. *)
Definition dropped_rows (df : list Row) (metric : string) (k : Q) : list Row :=
  flat_map (fun p => filter (fun r => negb (kept df metric k r)) (get_group df p))
           (group_keys df).

(** The order of the joined frame. *)
Definition row_le (a b : Row) : Prop := row_leb a b = true.

(** The order of the joined frame on its first key alone. *)
Definition player_le (a b : Row) : Prop :=
  String.leb (player_name a) (player_name b) = true.

(** The rows of a player in the frame with its derived columns. *)
Definition get_wgroup (df : list WRow) (player : string) : list WRow :=
  filter (fun w => String.eqb (player_name (w_row w)) player) df.

(** The assignments of one metric, with [before] the rows above. *)
Definition assign_from (metric : string) (before : list Row) (df : list WRow)
  : list WRow :=
  map (fun '(w, (a, c)) =>
         mkW (w_row w) ((metric, mkDerived a c (divide a c)) :: derived w))
      (combine df (combine (rolling_mean 7 metric before (map w_row df))
                           (rolling_mean 28 metric before (map w_row df)))).

(** What the rolling mean of size [size] is at the [i]-th row of a player
    whose rows are [g]. *)
Definition trailing_mean (size : nat) (metric : string) (g : list Row) (i : nat)
  : cell :=
  nanmean (lastn size (map (col metric) (firstn (S i) g))).

(** The three derived cells at the [i]-th row of a player whose rows are [g]. *)
Definition derived_at (metric : string) (g : list Row) (i : nat) : Derived :=
  let a := trailing_mean 7 metric g i in
  let c := trailing_mean 28 metric g i in
  mkDerived a c (divide a c).

(** What holds of the frame while the loop at lines 44-57 runs over [df]:
    its rows are those of [df], and the columns of each metric in [done]
    hold the trailing means and their ratio. *)
Definition columns_assigned (df : list Row) (done : list string) (acc : list WRow)
  : Prop :=
  map w_row acc = df /\
  forall p i w m,
    In m done ->
    nth_error (get_wgroup acc p) i = Some w ->
    lookup m (derived w) = Some (derived_at m (get_group df p) i).

(** The order [sort_values("Session Date")] puts the frame in. *)
Definition wdate_le (a b : WRow) : Prop := wdate_leb a b = true.

(** Ascending dates, NaT last, on the rows of one player. *)
Definition date_le (a b : Row) : Prop :=
  date_leb (session_date a) (session_date b) = true.

(** ** Sample inputs *)

(** A load record with both configured metrics present. *)
Definition session (player : string) (day : Z) (hsr dsl : Q) : LoadRecord :=
  mkLoad player (Some day) [("High Speed Running", Some hsr); ("DSL", Some dsl)].

(** Ann is in the registry and has no session; Bea has one. *)
Definition registry_ann_bea : list PositionRecord :=
  [mkPos "Ann" (Some "GK"); mkPos "Bea" (Some "FW")].

Definition workload_bea : list LoadRecord := [session "Bea" 1 50 50].

(** Two rows of one player; the first has no High Speed Running value. *)
Definition frame_with_gap : list Row :=
  [mkRow "Ann" (Some 1%Z) [("High Speed Running", None); ("DSL", Some 3)] (Some "GK");
   mkRow "Ann" (Some 2%Z) [("High Speed Running", Some 10); ("DSL", Some 4)] (Some "GK")].

(** Four rows of one player, the last with a spike in High Speed Running. *)
Definition frame_coupled : list Row :=
  [mkRow "Ann" (Some 1%Z) [("High Speed Running", Some 1); ("DSL", Some 0)] None;
   mkRow "Ann" (Some 2%Z) [("High Speed Running", Some 1); ("DSL", Some 0)] None;
   mkRow "Ann" (Some 3%Z) [("High Speed Running", Some 1); ("DSL", Some 1)] None;
   mkRow "Ann" (Some 4%Z) [("High Speed Running", Some 9); ("DSL", Some 0)] None].

(** Seven sessions of 10 and then a spike of 100. *)
Definition workload_spike : list LoadRecord :=
  [session "Ann" 1 10 10; session "Ann" 2 10 10; session "Ann" 3 10 10;
   session "Ann" 4 10 10; session "Ann" 5 10 10; session "Ann" 6 10 10;
   session "Ann" 7 10 10; session "Ann" 8 100 100].



(** Cy's eight sessions sum to zero over the chronic window and to 35 over
    the last seven; Dee's two sessions are both zero. *)
Definition workload_cy_dee : list LoadRecord :=
  [session "Cy" 1 (-35) (-35); session "Cy" 2 5 5; session "Cy" 3 5 5;
   session "Cy" 4 5 5; session "Cy" 5 5 5; session "Cy" 6 5 5;
   session "Cy" 7 5 5; session "Cy" 8 5 5;
   session "Dee" 1 0 0; session "Dee" 2 0 0].

Definition registry_cy_dee : list PositionRecord :=
  [mkPos "Cy" (Some "FW"); mkPos "Dee" (Some "GK")].

Definition snapshots_cy_dee : list WRow :=
  pipeline stable_sort_values_date metrics workload_cy_dee registry_cy_dee.

(** ** The layout's dropdowns and the chart's rows and markers *)

(** Two rows share the sort key of line 18. *)
Definition same_key (a b : Row) : bool :=
  String.eqb (player_name a) (player_name b)
  && match session_date a, session_date b with
     | Some x, Some y => Z.eqb x y
     | None, None => true
     | _, _ => false
     end.

(** [Series.unique()]: the distinct values, in order of first appearance. *)
Fixpoint unique (l : list string) : list string :=
  match l with
  | [] => []
  | x :: l' => x :: filter (fun y => negb (String.eqb y x)) (unique l')
  end.

(** The values of the position dropdown, line 88:
    [positions_df["Position"].dropna().unique()]. *)
Definition position_options (positions : list PositionRecord) : list string :=
  unique (flat_map (fun p => match pos_position p with
                             | Some s => [s]
                             | None => []
                             end) positions).

(** The derived cells of the selected metric at a row, as [update_chart]
    reads them. *)
Definition cells_of (selected_metric : string) (w : WRow) : Derived :=
  match lookup selected_metric (derived w) with
  | Some d => d
  | None => mkDerived None None NaN
  end.

(** The frame [df] of [update_chart] after lines 106-114: the position
    mask, then [dropna(subset=[acute_col, chronic_col], how="all")]. *)
Definition chart_rows (ms : list string) (latest : list WRow)
  (selected_position : option string) (selected_metric : string)
  : outcome (list WRow) :=
  let df :=
    match selected_position with
    | Some p => if String.eqb p "" then latest else filter (position_is p) latest
    | None => latest
    end in
  if negb (existsb (String.eqb selected_metric) ms)
  then KeyError (String.append "Acute_" selected_metric)
  else
    Returned
      (filter (fun w => negb (match Acute (cells_of selected_metric w),
                                    Chronic (cells_of selected_metric w) with
                              | None, None => true
                              | _, _ => false
                              end)) df).

(** The bar [update_chart] draws for a row: the acute mean, coloured by the
    ratio, with the chronic mean for the marker. *)
Definition bar_of (selected_metric : string) (w : WRow) : Bar :=
  mkBar (player_name (w_row w)) (Acute (cells_of selected_metric w))
        (bar_color (ACWR (cells_of selected_metric w)))
        (Chronic (cells_of selected_metric w)).

(** [list(names).index(name)]: the place of the first occurrence.  The
    callback only asks for names read from the list itself; for a name that
    is absent the length of the list stands in for Python's ValueError. *)
Fixpoint index_of (name : string) (names : list string) : nat :=
  match names with
  | [] => 0
  | n :: names' => if String.eqb n name then 0 else S (index_of name names')
  end.

(** A vertical line of the figure. *)
Record Shape := mkShape {
  shape_x0 : cell;
  shape_x1 : cell;
  shape_y0 : Q;
  shape_y1 : Q
}.

(** The loop at lines 142-150: one chronic marker per row of the chart,
    at the height of the first bar that carries the row's player name. *)
Definition chronic_shapes (selected_metric : string) (df : list WRow)
  : list Shape :=
  map (fun w =>
         let i := inject_Z (Z.of_nat (index_of (player_name (w_row w))
                                            (map (fun w' => player_name (w_row w')) df))) in
         mkShape (Chronic (cells_of selected_metric w))
                 (Chronic (cells_of selected_metric w))
                 (i - (4 # 10)) (i + (4 # 10)))
      df.

(** A row with its session date replaced. *)
Definition redate (f : Row -> option Z) (r : Row) : Row :=
  mkRow (player_name r) (f r) (metric_values r) (position r).

(** * Properties *)

(** ** Order on player names *)

Lemma string_leb_refl (s : string) : String.leb s s = true.
Proof.
  destruct (String.leb_total s s); assumption.
Qed.

Lemma string_leb_lt_or_eq (a b : string) :
  String.leb a b = true <-> String_as_OT.lt a b \/ a = b.
Proof.
  unfold String.leb.
  destruct (String.compare a b) eqn:E.
  - apply String_as_OT.cmp_eq in E. tauto.
  - apply String_as_OT.cmp_lt in E. tauto.
  - split; [discriminate|].
    intros [H | H].
    + apply String_as_OT.cmp_lt in H. unfold String_as_OT.cmp in H. congruence.
    + apply String_as_OT.cmp_eq in H. unfold String_as_OT.cmp in H. congruence.
Qed.

Lemma string_leb_trans (a b c : string) :
  String.leb a b = true -> String.leb b c = true -> String.leb a c = true.
Proof.
  rewrite !string_leb_lt_or_eq.
  intros [H1 | ->] [H2 | ->]; auto.
  left. eapply String_as_OT.lt_trans; eassumption.
Qed.

(** ** Insertion sort *)

Section InsertionSortFacts.
Context {A : Type} (leb : A -> A -> bool).

Local Abbreviation le := (fun a b => leb a b = true).

Lemma insert_sorted_perm (x : A) (l : list A) :
  Permutation (x :: l) (insert_sorted leb x l).
Proof.
  induction l as [| y l IH]; simpl; [reflexivity|].
  destruct (leb x y); [reflexivity|].
  rewrite perm_swap. constructor. exact IH.
Qed.

Lemma stable_sort_perm (l : list A) : Permutation l (stable_sort leb l).
Proof.
  induction l as [| x l IH]; simpl; [constructor|].
  rewrite <- insert_sorted_perm. constructor. exact IH.
Qed.

Hypothesis leb_total : forall a b, leb a b = true \/ leb b a = true.
Hypothesis leb_trans :
  forall a b c, leb a b = true -> leb b c = true -> leb a c = true.

Lemma insert_sorted_strongly (x : A) (l : list A) :
  StronglySorted le l -> StronglySorted le (insert_sorted leb x l).
Proof.
  induction 1 as [| y l Hs IH Hall]; simpl.
  - repeat constructor.
  - destruct (leb x y) eqn:E.
    + constructor; [constructor; assumption|].
      constructor; [exact E|].
      eapply Forall_impl; [|exact Hall].
      intros z Hz. eapply leb_trans; eassumption.
    + constructor; [exact IH|].
      eapply Permutation_Forall; [apply insert_sorted_perm|].
      constructor; [|exact Hall].
      destruct (leb_total x y) as [H | H]; [congruence | exact H].
Qed.

Lemma stable_sort_strongly (l : list A) : StronglySorted le (stable_sort leb l).
Proof.
  induction l as [| x l IH]; simpl; [constructor|].
  apply insert_sorted_strongly. exact IH.
Qed.
End InsertionSortFacts.

(** ** Filtering *)

Lemma filter_all {A : Type} (f : A -> bool) (l : list A) :
  (forall x, In x l -> f x = true) -> filter f l = l.
Proof.
  induction l as [| x l IH]; simpl; intros H; [reflexivity|].
  rewrite (H x (or_introl eq_refl)). f_equal. apply IH. intros; apply H; auto.
Qed.

Lemma filter_none {A : Type} (f : A -> bool) (l : list A) :
  (forall x, In x l -> f x = false) -> filter f l = [].
Proof.
  induction l as [| x l IH]; simpl; intros H; [reflexivity|].
  rewrite (H x (or_introl eq_refl)). apply IH. intros; apply H; auto.
Qed.

Lemma filter_length_le {A : Type} (f : A -> bool) (l : list A) :
  (length (filter f l) <= length l)%nat.
Proof.
  induction l as [| x l IH]; simpl; [lia|].
  destruct (f x); simpl; lia.
Qed.

(** ** Groups *)

Lemma get_group_In (df : list Row) (p : string) (r : Row) :
  In r (get_group df p) <-> In r df /\ player_name r = p.
Proof.
  unfold get_group. rewrite filter_In, String.eqb_eq. reflexivity.
Qed.

Lemma get_group_app (l1 l2 : list Row) (p : string) :
  get_group (l1 ++ l2) p = get_group l1 p ++ get_group l2 p.
Proof.
  apply filter_app.
Qed.

Lemma bound_group_In (metric : string) (k : Q) (g : list Row) (r : Row) :
  In r (bound_group metric k g) ->
  In r g /\ cell_le (col metric r) (upper_bound k (map (col metric) g)) = true.
Proof.
  unfold bound_group. rewrite filter_In. tauto.
Qed.

Lemma get_group_bound_same (metric : string) (k : Q) (df : list Row) (p : string) :
  get_group (bound_group metric k (get_group df p)) p
  = bound_group metric k (get_group df p).
Proof.
  apply filter_all. intros r Hr.
  apply bound_group_In in Hr. destruct Hr as [Hr _].
  apply get_group_In in Hr. apply String.eqb_eq. tauto.
Qed.

Lemma get_group_bound_other (metric : string) (k : Q) (df : list Row) (p q : string) :
  p <> q -> get_group (bound_group metric k (get_group df p)) q = [].
Proof.
  intros Hpq. apply filter_none. intros r Hr.
  apply bound_group_In in Hr. destruct Hr as [Hr _].
  apply get_group_In in Hr. apply String.eqb_neq. destruct Hr; congruence.
Qed.

Lemma insert_key_In (k x : string) (ks : list string) :
  In x (insert_key k ks) <-> x = k \/ In x ks.
Proof.
  induction ks as [| k' ks IH]; simpl.
  - intuition.
  - destruct (String.eqb_spec k k') as [-> | Hne].
    + simpl. intuition.
    + destruct (String.leb k k'); simpl; [intuition|].
      rewrite IH. intuition.
Qed.

Lemma insert_key_sorted (k : string) (ks : list string) :
  StronglySorted key_lt ks -> StronglySorted key_lt (insert_key k ks).
Proof.
  induction 1 as [| k' ks Hs IH Hall]; simpl.
  - repeat constructor.
  - destruct (String.eqb_spec k k') as [-> | Hne].
    + constructor; assumption.
    + destruct (String.leb k k') eqn:E.
      * constructor; [constructor; assumption|].
        constructor; [split; assumption|].
        eapply Forall_impl; [|exact Hall].
        intros z [Hz Hneq]. split.
        -- eapply string_leb_trans; eassumption.
        -- intros ->. apply Hne. apply String.leb_antisym; assumption.
      * constructor; [exact IH|].
        apply Forall_forall. intros z Hz.
        apply insert_key_In in Hz. destruct Hz as [-> | Hz].
        -- split; [|congruence].
           destruct (String.leb_total k k') as [H | H]; [congruence | exact H].
        -- rewrite Forall_forall in Hall. apply Hall. exact Hz.
Qed.

Lemma group_keys_sorted (df : list Row) : StronglySorted key_lt (group_keys df).
Proof.
  unfold group_keys.
  induction df as [| r df IH]; simpl; [constructor|].
  apply insert_key_sorted. exact IH.
Qed.

Lemma group_keys_In (df : list Row) (p : string) :
  In p (group_keys df) <-> exists r, In r df /\ player_name r = p.
Proof.
  unfold group_keys.
  induction df as [| r df IH]; simpl.
  - split; [tauto | intros [r [[] _]]].
  - rewrite insert_key_In, IH. split.
    + intros [-> | [r' [H1 H2]]]; eauto.
    + intros [r' [[-> | H1] H2]]; eauto.
Qed.

Lemma key_sorted_NoDup (ks : list string) : StronglySorted key_lt ks -> NoDup ks.
Proof.
  induction 1 as [| k ks Hs IH Hall]; constructor; [|exact IH].
  intros Hin. rewrite Forall_forall in Hall.
  destruct (Hall k Hin) as [_ Hne]. congruence.
Qed.

Lemma get_group_no_key (df : list Row) (p : string) :
  ~ In p (group_keys df) -> get_group df p = [].
Proof.
  intros Hn. apply filter_none. intros r Hr.
  apply String.eqb_neq. intros Heq. apply Hn.
  apply group_keys_In. eauto.
Qed.

(** The group of a player in the bounded frame is the bounded group of this
    player, whatever the order of the frame. *)
Lemma get_group_flat_bound (metric : string) (k : Q) (df : list Row)
  (ks : list string) (p : string) :
  NoDup ks ->
  get_group (flat_map (fun q => bound_group metric k (get_group df q)) ks) p
  = if in_dec string_dec p ks then bound_group metric k (get_group df p) else [].
Proof.
  induction 1 as [| q ks Hq Hnd IH]; simpl; [reflexivity|].
  rewrite get_group_app, IH.
  destruct (string_dec q p) as [-> | Hne].
  - rewrite get_group_bound_same.
    destruct (in_dec string_dec p ks); [contradiction | apply app_nil_r].
  - rewrite get_group_bound_other by exact Hne.
    destruct (in_dec string_dec p ks); reflexivity.
Qed.

Lemma get_group_remove_extreme_highs (df : list Row) (metric : string) (k : Q)
  (p : string) :
  get_group (remove_extreme_highs df metric k) p
  = bound_group metric k (get_group df p).
Proof.
  unfold remove_extreme_highs.
  rewrite get_group_flat_bound by (apply key_sorted_NoDup, group_keys_sorted).
  destruct (in_dec string_dec p (group_keys df)) as [Hin | Hn]; [reflexivity|].
  rewrite (get_group_no_key df p Hn). reflexivity.
Qed.

(** ** One pass of the bounder *)

Lemma bound_group_kept (df : list Row) (metric : string) (k : Q) (p : string) :
  bound_group metric k (get_group df p)
  = filter (kept df metric k) (get_group df p).
Proof.
  unfold bound_group. apply filter_ext_in. intros r Hr.
  apply get_group_In in Hr. destruct Hr as [_ <-]. reflexivity.
Qed.

Lemma remove_extreme_highs_In (df : list Row) (metric : string) (k : Q) (r : Row) :
  In r (remove_extreme_highs df metric k)
  <-> In r df /\ kept df metric k r = true.
Proof.
  split.
  - intros Hr.
    assert (Hg : In r (get_group (remove_extreme_highs df metric k) (player_name r)))
      by (apply get_group_In; auto).
    rewrite get_group_remove_extreme_highs, bound_group_kept in Hg.
    apply filter_In in Hg. destruct Hg as [Hg Hk].
    apply get_group_In in Hg. tauto.
  - intros [Hr Hk].
    assert (Hg : In r (get_group (remove_extreme_highs df metric k) (player_name r))).
    { rewrite get_group_remove_extreme_highs, bound_group_kept.
      apply filter_In. split; [|exact Hk]. apply get_group_In. auto. }
    apply get_group_In in Hg. tauto.
Qed.

Lemma cell_le_Some (a b : cell) :
  cell_le a b = true <-> exists x y, a = Some x /\ b = Some y /\ x <= y.
Proof.
  destruct a as [x|], b as [y|]; simpl; split;
    try discriminate; try (intros [x' [y' [H1 [H2 _]]]]; discriminate).
  - intros H. exists x, y. rewrite <- Qle_bool_iff. auto.
  - intros [x' [y' [H1 [H2 H3]]]]. inversion H1; inversion H2; subst.
    apply Qle_bool_iff. exact H3.
Qed.

(** A missing cell never passes the mask. *)
Lemma remove_extreme_highs_notna (df : list Row) (metric : string) (k : Q) (r : Row) :
  In r (remove_extreme_highs df metric k) -> col metric r <> None.
Proof.
  intros Hr. apply remove_extreme_highs_In in Hr. destruct Hr as [_ Hk].
  unfold kept in Hk. apply cell_le_Some in Hk.
  destruct Hk as [x [y [H _]]]. congruence.
Qed.

Lemma filter_partition_perm {A : Type} (f : A -> bool) (l : list A) :
  Permutation l (filter f l ++ filter (fun x => negb (f x)) l).
Proof.
  induction l as [| x l IH]; simpl; [constructor|].
  destruct (f x); simpl.
  - constructor. exact IH.
  - apply Permutation_cons_app. exact IH.
Qed.

Lemma groups_perm (df : list Row) (ks : list string) :
  NoDup ks ->
  Permutation (flat_map (get_group df) ks) (filter (among ks) df).
Proof.
  induction 1 as [| q ks Hq Hnd IH]; simpl.
  - rewrite filter_none; [constructor | reflexivity].
  - rewrite IH. clear IH.
    induction df as [| r df IHdf]; simpl; [constructor|].
    unfold among at 2. simpl. fold (among ks r).
    destruct (String.eqb_spec (player_name r) q) as [E | E]; simpl.
    + assert (Hr : among ks r = false).
      { unfold among. apply not_true_is_false. intros H.
        apply existsb_exists in H. destruct H as [x [Hx Hx']].
        apply String.eqb_eq in Hx'. congruence. }
      rewrite Hr. constructor. exact IHdf.
    + destruct (among ks r).
      * symmetry. apply Permutation_cons_app. symmetry. exact IHdf.
      * exact IHdf.
Qed.

Lemma groups_cover (df : list Row) :
  Permutation (flat_map (get_group df) (group_keys df)) df.
Proof.
  rewrite groups_perm by (apply key_sorted_NoDup, group_keys_sorted).
  rewrite filter_all; [reflexivity|].
  intros r Hr. unfold among. apply existsb_exists.
  exists (player_name r). split; [|apply String.eqb_refl].
  apply group_keys_In. eauto.
Qed.

Lemma remove_extreme_highs_perm (df : list Row) (metric : string) (k : Q) :
  Permutation df (remove_extreme_highs df metric k ++ dropped_rows df metric k).
Proof.
  rewrite <- (groups_cover df) at 1.
  unfold remove_extreme_highs, dropped_rows.
  induction (group_keys df) as [| p ks IH]; simpl; [constructor|].
  rewrite IH, bound_group_kept.
  rewrite (filter_partition_perm (kept df metric k) (get_group df p)) at 1.
  rewrite <- !app_assoc. apply Permutation_app_head.
  rewrite !app_assoc. apply Permutation_app_tail.
  apply Permutation_app_comm.
Qed.

(** ** Frame order *)

Lemma date_leb_total (a b : option Z) : date_leb a b = true \/ date_leb b a = true.
Proof.
  destruct a as [x|], b as [y|]; simpl; auto.
  rewrite !Z.leb_le. lia.
Qed.

Lemma date_leb_trans (a b c : option Z) :
  date_leb a b = true -> date_leb b c = true -> date_leb a c = true.
Proof.
  destruct a as [x|], b as [y|], c as [z|]; simpl; auto; try discriminate.
  rewrite !Z.leb_le. lia.
Qed.

Lemma row_leb_total (a b : Row) : row_leb a b = true \/ row_leb b a = true.
Proof.
  unfold row_leb. rewrite (String.eqb_sym (player_name b)).
  destruct (String.eqb (player_name a) (player_name b)).
  - apply date_leb_total.
  - apply String.leb_total.
Qed.

Lemma row_leb_trans (a b c : Row) :
  row_leb a b = true -> row_leb b c = true -> row_leb a c = true.
Proof.
  unfold row_leb.
  destruct (String.eqb_spec (player_name a) (player_name b)) as [Eab | Nab];
    destruct (String.eqb_spec (player_name b) (player_name c)) as [Ebc | Nbc];
    destruct (String.eqb_spec (player_name a) (player_name c)) as [Eac | Nac];
    intros H1 H2; try congruence.
  - eapply date_leb_trans; eassumption.
  - exfalso. apply Nab. apply String.leb_antisym; [exact H1|].
    rewrite Eac. exact H2.
  - eapply string_leb_trans; eassumption.
Qed.

Lemma sort_values_player_date_sorted (df : list Row) :
  StronglySorted row_le (sort_values_player_date df).
Proof.
  apply (stable_sort_strongly row_leb row_leb_total row_leb_trans).
Qed.

Lemma row_le_player_le (a b : Row) : row_le a b -> player_le a b.
Proof.
  unfold row_le, row_leb, player_le.
  destruct (String.eqb_spec (player_name a) (player_name b)) as [-> | _];
    [intros _; apply string_leb_refl | auto].
Qed.

Lemma strongly_sorted_impl {A : Type} (R S : A -> A -> Prop) (l : list A) :
  (forall a b, R a b -> S a b) -> StronglySorted R l -> StronglySorted S l.
Proof.
  intros HRS. induction 1 as [| x l Hs IH Hall]; constructor; [exact IH|].
  eapply Forall_impl; [|exact Hall]. intros; apply HRS; assumption.
Qed.

Lemma flat_map_ext_in {A B : Type} (f g : A -> list B) (l : list A) :
  (forall a, In a l -> f a = g a) -> flat_map f l = flat_map g l.
Proof.
  induction l as [| a l IH]; simpl; intros H; [reflexivity|].
  rewrite (H a (or_introl eq_refl)), IH; [reflexivity|].
  intros; apply H; auto.
Qed.

Lemma filter_flat_map {A B : Type} (f : B -> bool) (g : A -> list B) (l : list A) :
  filter f (flat_map g l) = flat_map (fun a => filter f (g a)) l.
Proof.
  induction l as [| a l IH]; simpl; [reflexivity|].
  rewrite filter_app, IH. reflexivity.
Qed.

(** A key below all the keys either heads them already or goes in front. *)
Lemma insert_key_least (k : string) (ks : list string) :
  StronglySorted key_lt ks ->
  (forall x, In x ks -> String.leb k x = true) ->
  exists ks', insert_key k ks = k :: ks' /\ ~ In k ks' /\
              (ks = k :: ks' \/ (ks = ks' /\ ~ In k ks)).
Proof.
  intros Hs Hle. destruct ks as [| k' ks]; simpl.
  - exists []. simpl. tauto.
  - inversion Hs as [| ? ? Hs' Hall]; subst.
    rewrite Forall_forall in Hall.
    assert (Hnotin : ~ In k ks).
    { intros Hin. destruct (Hall k Hin) as [H1 H2]. apply H2.
      apply String.leb_antisym; [exact H1 | apply Hle; left; reflexivity]. }
    destruct (String.eqb_spec k k') as [<- | Hne].
    + exists ks. auto.
    + rewrite (Hle k' (or_introl eq_refl)).
      exists (k' :: ks). split; [reflexivity|]. split.
      * simpl. intros [H | H]; [congruence | contradiction].
      * right. split; [reflexivity|]. simpl. intros [H | H]; [congruence | contradiction].
Qed.

(** In a frame sorted by player, the groups taken in key order are
    the frame itself. *)
Lemma groups_concat_sorted (df : list Row) :
  StronglySorted player_le df ->
  flat_map (get_group df) (group_keys df) = df.
Proof.
  induction 1 as [| r df Hs IH Hall]; [reflexivity|].
  rewrite Forall_forall in Hall.
  change (group_keys (r :: df)) with (insert_key (player_name r) (group_keys df)).
  destruct (insert_key_least (player_name r) (group_keys df)) as [ks' [E [Hn Hcase]]].
  - apply group_keys_sorted.
  - intros x Hx. apply group_keys_In in Hx. destruct Hx as [r' [Hr' <-]].
    apply Hall. exact Hr'.
  - rewrite E. simpl. rewrite String.eqb_refl. simpl. f_equal.
    rewrite (flat_map_ext_in (get_group (r :: df)) (get_group df)).
    + destruct Hcase as [Hk | [Hk Hnk]].
      * rewrite Hk in IH. simpl in IH. exact IH.
      * rewrite <- Hk, IH. rewrite get_group_no_key by exact Hnk. reflexivity.
    + intros q Hq. simpl.
      destruct (String.eqb_spec (player_name r) q) as [<- | _];
        [contradiction | reflexivity].
Qed.

(** On a sorted frame one pass is a filter in place. *)
Lemma remove_extreme_highs_filter (df : list Row) (metric : string) (k : Q) :
  StronglySorted row_le df ->
  remove_extreme_highs df metric k = filter (kept df metric k) df.
Proof.
  intros Hs. unfold remove_extreme_highs.
  rewrite (flat_map_ext_in _ (fun p => filter (kept df metric k) (get_group df p)))
    by (intros; apply bound_group_kept).
  rewrite <- filter_flat_map, groups_concat_sorted; [reflexivity|].
  eapply strongly_sorted_impl; [apply row_le_player_le | exact Hs].
Qed.

Lemma strongly_sorted_filter {A : Type} (R : A -> A -> Prop) (f : A -> bool)
  (l : list A) :
  StronglySorted R l -> StronglySorted R (filter f l).
Proof.
  induction 1 as [| x l Hs IH Hall]; simpl; [constructor|].
  destruct (f x); [|exact IH].
  constructor; [exact IH|].
  rewrite Forall_forall in *. intros y Hy. apply Hall.
  apply filter_In in Hy. tauto.
Qed.

Lemma remove_extreme_highs_sorted (df : list Row) (metric : string) (k : Q) :
  StronglySorted row_le df ->
  StronglySorted row_le (remove_extreme_highs df metric k).
Proof.
  intros Hs. rewrite remove_extreme_highs_filter by exact Hs.
  apply strongly_sorted_filter. exact Hs.
Qed.

Lemma bound_all_sorted (ms : list string) (df : list Row) :
  StronglySorted row_le df -> StronglySorted row_le (bound_all ms df).
Proof.
  unfold bound_all. revert df.
  induction ms as [| m ms IH]; simpl; intros df Hs; [exact Hs|].
  apply IH. apply remove_extreme_highs_sorted. exact Hs.
Qed.

(** ** All passes of the bounder *)


Lemma bound_all_incl (ms : list string) (df : list Row) (r : Row) :
  In r (bound_all ms df) -> In r df.
Proof.
  unfold bound_all. revert df.
  induction ms as [| m ms IH]; simpl; intros df Hr; [exact Hr|].
  apply IH in Hr. apply remove_extreme_highs_In in Hr. tauto.
Qed.

(** After the passes no row has a missing cell in a bounded metric. *)
Lemma bound_all_notna (ms : list string) (df : list Row) (m : string) (r : Row) :
  In m ms -> In r (bound_all ms df) -> col m r <> None.
Proof.
  revert df.
  induction ms as [| m' ms IH]; simpl; intros df Hm Hr; [contradiction|].
  destruct (in_dec string_dec m ms) as [Hin | Hn].
  - eapply IH; eassumption.
  - destruct Hm as [-> | Hm]; [|contradiction].
    apply (bound_all_incl ms) in Hr.
    eapply remove_extreme_highs_notna. exact Hr.
Qed.

(** ** Rolling means *)

Lemma assign_from_rows (metric : string) (before : list Row) (df : list WRow) :
  map w_row (assign_from metric before df) = map w_row df.
Proof.
  unfold assign_from. revert before.
  induction df as [| w df IH]; simpl; intros before; [reflexivity|].
  f_equal. apply IH.
Qed.

Lemma get_wgroup_rows (df : list WRow) (p : string) :
  map w_row (get_wgroup df p) = get_group (map w_row df) p.
Proof.
  unfold get_wgroup, get_group.
  induction df as [| w df IH]; simpl; [reflexivity|].
  destruct (String.eqb (player_name (w_row w)) p); simpl; rewrite IH; reflexivity.
Qed.

Lemma firstn_app_all {A : Type} (l1 l2 : list A) (n : nat) :
  firstn (length l1 + n) (l1 ++ l2) = l1 ++ firstn n l2.
Proof.
  rewrite firstn_app, firstn_all2 by lia.
  replace (length l1 + n - length l1)%nat with n by lia. reflexivity.
Qed.

Lemma firstn_S_app {A : Type} (l1 l2 : list A) (x : A) (i : nat) :
  firstn (S (length l1 + i)) (l1 ++ x :: l2) = l1 ++ x :: firstn i l2.
Proof.
  replace (S (length l1 + i)) with (length l1 + S i)%nat by lia.
  rewrite firstn_app_all. reflexivity.
Qed.

Lemma assign_from_group (metric : string) (p : string) (df : list WRow) :
  forall (before : list Row) (i : nat) (w' : WRow),
    nth_error (get_wgroup (assign_from metric before df) p) i = Some w' ->
    exists w,
      nth_error (get_wgroup df p) i = Some w /\
      w_row w' = w_row w /\
      derived w'
      = (metric,
         derived_at metric (get_group before p ++ get_group (map w_row df) p)
                    (length (get_group before p) + i))
        :: derived w.
Proof.
  induction df as [| w df IH]; intros before i w' H.
  - destruct i; discriminate.
  - unfold assign_from in H. simpl in H. fold (assign_from metric (before ++ [w_row w]) df) in H.
    simpl.
    destruct (String.eqb_spec (player_name (w_row w)) p) as [E | E].
    + assert (Hg : get_group (before ++ [w_row w]) p = get_group before p ++ [w_row w]).
      { rewrite get_group_app. simpl. rewrite <- E, String.eqb_refl. reflexivity. }
      destruct i as [| i].
      * simpl in H. inversion H; subst w'; clear H. simpl.
        exists w. repeat split. f_equal. f_equal.
        unfold derived_at, trailing_mean.
        rewrite firstn_S_app, E, Hg. reflexivity.
      * simpl in H. apply IH in H. destruct H as [w0 [H1 [H2 H3]]].
        exists w0. simpl. repeat split; auto.
        rewrite H3. f_equal. f_equal.
        rewrite Hg, length_app, <- app_assoc. simpl.
        f_equal. lia.
    + assert (Hg : get_group (before ++ [w_row w]) p = get_group before p).
      { rewrite get_group_app. simpl.
        destruct (String.eqb_spec (player_name (w_row w)) p); [contradiction|].
        apply app_nil_r. }
      apply IH in H. destruct H as [w0 [H1 [H2 H3]]].
      exists w0. repeat split; auto. rewrite H3, Hg. reflexivity.
Qed.

Lemma assign_columns_from (metric : string) (df : list WRow) :
  assign_columns metric df = assign_from metric [] df.
Proof.
  reflexivity.
Qed.

Lemma assign_columns_step (df : list Row) (done : list string) (acc : list WRow)
  (metric : string) :
  columns_assigned df done acc ->
  columns_assigned df (metric :: done) (assign_columns metric acc).
Proof.
  intros [Hrows Hcols]. rewrite assign_columns_from. split.
  - rewrite assign_from_rows. exact Hrows.
  - intros p i w m Hm Hw.
    apply assign_from_group in Hw. destruct Hw as [w0 [H1 [H2 H3]]].
    rewrite Hrows in H3. simpl in H3. rewrite H3. simpl.
    destruct (String.eqb_spec m metric) as [-> | Hne]; [reflexivity|].
    destruct Hm as [Hm | Hm]; [congruence|].
    eapply Hcols; eassumption.
Qed.

Lemma assign_columns_fold (df : list Row) (ms done : list string) (acc : list WRow) :
  columns_assigned df done acc ->
  columns_assigned df (rev ms ++ done)
                   (fold_left (fun acc metric => assign_columns metric acc) ms acc).
Proof.
  revert done acc.
  induction ms as [| m ms IH]; simpl; intros done acc H; [exact H|].
  rewrite <- app_assoc. simpl. apply IH. apply assign_columns_step. exact H.
Qed.

Lemma add_acwr_assigned (ms : list string) (df : list Row) :
  columns_assigned df ms (add_acwr ms df).
Proof.
  unfold add_acwr.
  pose proof (assign_columns_fold df ms [] (map (fun r => mkW r []) df)) as H.
  destruct H as [Hrows Hcols].
  - split; [|intros p i w m []].
    rewrite map_map. simpl. apply map_id.
  - split; [exact Hrows|].
    intros p i w m Hm. apply Hcols.
    rewrite app_nil_r. apply in_rev in Hm. exact Hm.
Qed.

Lemma add_acwr_rows (ms : list string) (df : list Row) :
  map w_row (add_acwr ms df) = df.
Proof.
  apply add_acwr_assigned.
Qed.

Lemma add_acwr_group (ms : list string) (df : list Row) (p m : string)
  (i : nat) (w : WRow) :
  In m ms ->
  nth_error (get_wgroup (add_acwr ms df) p) i = Some w ->
  nth_error (get_group df p) i = Some (w_row w) /\
  lookup m (derived w) = Some (derived_at m (get_group df p) i).
Proof.
  intros Hm Hw. split.
  - rewrite <- (add_acwr_rows ms df) at 1.
    rewrite <- get_wgroup_rows. rewrite nth_error_map, Hw. reflexivity.
  - destruct (add_acwr_assigned ms df) as [_ H]. eapply H; eassumption.
Qed.


(** ** The latest row of each player *)

Lemma tail1_incl (df : list WRow) (w : WRow) : In w (tail1 df) -> In w df.
Proof.
  induction df as [| x df IH]; simpl; [tauto|].
  destruct (existsb _ df); simpl; intuition.
Qed.

Lemma existsb_player_group (df : list WRow) (p : string) :
  existsb (fun w' => String.eqb (player_name (w_row w')) p) df = false ->
  get_wgroup df p = [].
Proof.
  intros H. apply filter_none. intros w Hw.
  apply not_true_is_false. intros E.
  assert (Hex : existsb (fun w' => String.eqb (player_name (w_row w')) p) df = true)
    by (apply existsb_exists; eauto).
  congruence.
Qed.

Lemma lastn_1_cons {A : Type} (x : A) (l : list A) :
  l <> [] -> lastn 1 (x :: l) = lastn 1 l.
Proof.
  intros Hne. unfold lastn. destruct l as [| y l]; [congruence|].
  simpl length. replace (S (S (length l)) - 1)%nat with (S (S (length l) - 1)) by lia.
  reflexivity.
Qed.

(** [tail(1)] keeps of each group its last row. *)
Lemma tail1_group (df : list WRow) (p : string) :
  get_wgroup (tail1 df) p = lastn 1 (get_wgroup df p).
Proof.
  induction df as [| w df IH]; [reflexivity|].
  simpl.
  destruct (existsb (fun w' => String.eqb (player_name (w_row w'))
                                          (player_name (w_row w))) df) eqn:Ex.
  - rewrite IH.
    destruct (String.eqb_spec (player_name (w_row w)) p) as [E | E]; [|reflexivity].
    rewrite lastn_1_cons; [reflexivity|].
    apply existsb_exists in Ex. destruct Ex as [w' [Hw' Hp]].
    intros Hnil.
    assert (Hin : In w' (get_wgroup df p)).
    { apply filter_In. split; [exact Hw' | rewrite <- E; exact Hp]. }
    rewrite Hnil in Hin. destruct Hin.
  - simpl. rewrite IH.
    destruct (String.eqb_spec (player_name (w_row w)) p) as [E | E]; [|reflexivity].
    rewrite <- E. rewrite (existsb_player_group df _ Ex). reflexivity.
Qed.

Lemma lastn_1_last {A : Type} (l : list A) :
  l <> [] -> exists before x, l = before ++ [x] /\ lastn 1 l = [x].
Proof.
  intros Hne. destruct (exists_last Hne) as [before [x E]].
  exists before, x. split; [exact E|].
  unfold lastn. rewrite E, length_app. simpl.
  replace (length before + 1 - 1)%nat with (length before + 0)%nat by lia.
  rewrite skipn_app, skipn_all2 by lia.
  replace (length before + 0 - length before)%nat with 0%nat by lia.
  reflexivity.
Qed.



(** ** Athletes without load records *)

Lemma merge_rows (workload : list LoadRecord) (positions : list PositionRecord)
  (r : Row) :
  In r (merge workload positions) ->
  (exists p, In p positions /\ r = unmatched_row p) \/
  (exists p l, In p positions /\ In l workload /\
               load_player l = pos_player p /\ r = join_row p l).
Proof.
  unfold merge. rewrite in_flat_map. intros [p [Hp Hr]].
  destruct (filter (fun l => String.eqb (load_player l) (pos_player p)) workload)
    as [| l0 ls] eqn:E.
  - left. exists p. destruct Hr as [<- | []]. auto.
  - right. apply in_map_iff in Hr. destruct Hr as [l [<- Hl]].
    rewrite <- E in Hl. apply filter_In in Hl. destruct Hl as [Hl Heq].
    apply String.eqb_eq in Heq. exists p, l. auto.
Qed.

(** With one metric to bound at least, a player without load records has no
    row in the frame the snapshots are taken from. *)
Lemma no_load_no_row (workload : list LoadRecord) (positions : list PositionRecord)
  (m : string) (ms : list string) (p : string) :
  (forall l, In l workload -> load_player l <> p) ->
  get_wgroup (merged_df (m :: ms) workload positions) p = [].
Proof.
  intros Hnone.
  destruct (get_wgroup (merged_df (m :: ms) workload positions) p) as [| w g] eqn:E;
    [reflexivity | exfalso].
  assert (Hw : In w (get_wgroup (merged_df (m :: ms) workload positions) p))
    by (rewrite E; left; reflexivity).
  apply filter_In in Hw. destruct Hw as [Hw Hp]. apply String.eqb_eq in Hp.
  unfold merged_df in Hw.
  apply (in_map w_row) in Hw. rewrite add_acwr_rows in Hw.
  pose proof (bound_all_notna (m :: ms) _ m _ (or_introl eq_refl) Hw) as Hcell.
  apply bound_all_incl in Hw.
  apply (Permutation_in _ (Permutation_sym (stable_sort_perm row_leb _))) in Hw.
  apply merge_rows in Hw.
  destruct Hw as [[q [_ Hr]] | [q [l [_ [Hl [Hlq Hr]]]]]].
  - apply Hcell. rewrite Hr. reflexivity.
  - apply (Hnone l Hl). rewrite Hlq, <- Hp, Hr. reflexivity.
Qed.

(** ** Two runs *)

(** The spike is dropped, the seven sessions left give means of 10 and a
    ratio of 1, drawn grey. *)
Example run_spike :
  map (fun r => session_date r)
      (bound_all metrics
         (sort_values_player_date (merge workload_spike registry_ann_bea)))
  = [Some 1%Z; Some 2%Z; Some 3%Z; Some 4%Z; Some 5%Z; Some 6%Z; Some 7%Z] /\
  update_chart metrics
    (pipeline stable_sort_values_date metrics workload_spike registry_ann_bea)
    None "DSL"
  = Returned [mkBar "Ann" (Some (70 # 7)) grey (Some (70 # 7))].
Proof.
  split; vm_compute; reflexivity.
Qed.

(** One session of 50 gives means of 50 and a ratio of 1. *)
Example run_single_session :
  map (fun w => (player_name (w_row w), lookup "DSL" (derived w)))
      (pipeline stable_sort_values_date metrics workload_bea registry_ann_bea)
  = [("Bea", Some (mkDerived (Some 50) (Some 50) (Fin (50 # 50))))].
Proof.
  vm_compute. reflexivity.
Qed.

(** * The claims *)

(** C1: an athlete of the registry without load records is joined in with
    missing cells, and the first pass of the bounder drops that row: with
    Ann in the registry and no session of hers, the snapshots hold Bea's
    row and none for Ann. *)
Theorem C1_registry_only_athlete_dropped :
  In (unmatched_row (mkPos "Ann" (Some "GK")))
     (sort_values_player_date (merge workload_bea registry_ann_bea)) /\
  get_wgroup (pipeline stable_sort_values_date metrics workload_bea registry_ann_bea)
             "Ann" = [] /\
  map (fun w => player_name (w_row w))
      (pipeline stable_sort_values_date metrics workload_bea registry_ann_bea)
  = ["Bea"].
Proof.
  split; [|split].
  - vm_compute. left. reflexivity.
  - vm_compute. reflexivity.
  - vm_compute. reflexivity.
Qed.

(** C2: a row whose cell for the bounded metric is missing does not pass the
    mask [group[metric] <= upper]: bounding High Speed Running on Ann's two
    rows, where the bound is 10, keeps the row with value 10 and drops the
    row with no value. *)
Theorem C2_missing_value_row_dropped :
  (exists upper,
      upper_bound default_multiplier (map (col "High Speed Running") frame_with_gap)
      = Some upper /\ upper == 10) /\
  remove_extreme_highs frame_with_gap "High Speed Running" default_multiplier
  = [mkRow "Ann" (Some 2%Z) [("High Speed Running", Some 10); ("DSL", Some 4)]
           (Some "GK")].
Proof.
  split.
  - eexists. split; [vm_compute; reflexivity | reflexivity].
  - vm_compute. reflexivity.
Qed.

Lemma existsb_eqb_In (m : string) (ms : list string) :
  existsb (String.eqb m) ms = true <-> In m ms.
Proof.
  rewrite existsb_exists. split.
  - intros [x [Hx E]]. apply String.eqb_eq in E. subst. exact Hx.
  - intros H. exists m. split; [exact H | apply String.eqb_refl].
Qed.






(** The chaining shows: once the pass for High Speed Running has dropped
    Ann's fourth row, her third row is under the DSL bound taken over the
    three rows left, while it is above the DSL bound taken over all four. *)
Example bounding_passes_coupled :
  map session_date (bound_all metrics frame_coupled)
  = [Some 1%Z; Some 2%Z; Some 3%Z] /\
  map session_date (remove_extreme_highs frame_coupled "DSL" default_multiplier)
  = [Some 1%Z; Some 2%Z; Some 4%Z].
Proof.
  split; vm_compute; reflexivity.
Qed.

(** C8: one pass only removes rows.  The frame is the kept rows and the
    dropped ones, rearranged; of each player the kept rows are rows of the
    frame, unchanged and in their order; none are added; and each kept cell
    is at or under the bound of its player. *)
Theorem C8_bounder_only_removes (df : list Row) (metric : string) (k : Q) :
  Permutation df (remove_extreme_highs df metric k ++ dropped_rows df metric k) /\
  (length (remove_extreme_highs df metric k) <= length df)%nat /\
  (forall p,
      get_group (remove_extreme_highs df metric k) p
      = filter (kept df metric k) (get_group df p) /\
      (length (get_group (remove_extreme_highs df metric k) p)
       <= length (get_group df p))%nat) /\
  (forall r,
      In r (remove_extreme_highs df metric k) ->
      In r df /\
      exists v upper,
        col metric r = Some v /\
        upper_bound k (map (col metric) (get_group df (player_name r))) = Some upper /\
        v <= upper).
Proof.
  split; [apply remove_extreme_highs_perm|]. split; [|split].
  - pose proof (Permutation_length (remove_extreme_highs_perm df metric k)) as H.
    rewrite length_app in H. lia.
  - intros p. rewrite get_group_remove_extreme_highs, bound_group_kept.
    split; [reflexivity | apply filter_length_le].
  - intros r Hr. apply remove_extreme_highs_In in Hr. destruct Hr as [Hr Hk].
    split; [exact Hr|].
    unfold kept in Hk. apply cell_le_Some in Hk.
    destruct Hk as [v [u [H1 [H2 H3]]]]. eauto.
Qed.

(** C8 at the two-row frame: the one kept row is under the bound. *)
Lemma C8_bounder_only_removes_witness :
  exists r, In r (remove_extreme_highs frame_with_gap "High Speed Running"
                                       default_multiplier) /\
            In r frame_with_gap.
Proof.
  pose (r := mkRow "Ann" (Some 2%Z)
                   [("High Speed Running", Some 10); ("DSL", Some 4)] (Some "GK")).
  assert (Hr : In r (remove_extreme_highs frame_with_gap "High Speed Running"
                                          default_multiplier))
    by (vm_compute; left; reflexivity).
  exists r. split; [exact Hr|].
  destruct (C8_bounder_only_removes frame_with_gap "High Speed Running"
                                    default_multiplier) as [_ [_ [_ H]]].
  apply (H r Hr).
Defined.



Lemma stable_sort_values_date_sorted (l : list WRow) :
  StronglySorted wdate_le (stable_sort_values_date l).
Proof.
  apply (stable_sort_strongly wdate_leb).
  - intros a b. apply date_leb_total.
  - intros a b c. apply date_leb_trans.
Qed.


(** ** Contiguous groups *)

Lemma string_ltb_leb (a b : string) : String.ltb a b = negb (String.leb b a).
Proof.
  unfold String.ltb, String.leb. rewrite (String.compare_antisym a b).
  destruct (String.compare b a); reflexivity.
Qed.

(** A frame sorted by player is the rows of the players before [p], then
    the rows of [p], then the rows of the players after. *)
Lemma group_contiguous (df : list Row) (p : string) :
  StronglySorted player_le df ->
  df = filter (fun r => String.ltb (player_name r) p) df
       ++ get_group df p
       ++ filter (fun r => String.ltb p (player_name r)) df.
Proof.
  induction 1 as [| r df Hs IH Hall]; [reflexivity|].
  rewrite Forall_forall in Hall. unfold player_le in Hall.
  simpl. rewrite !string_ltb_leb.
  destruct (String.leb p (player_name r)) eqn:Epr; simpl.
  - assert (Hbefore : filter (fun r => String.ltb (player_name r) p) df = []).
    { apply filter_none. intros x Hx. rewrite string_ltb_leb.
      rewrite (string_leb_trans _ _ _ Epr (Hall x Hx)). reflexivity. }
    rewrite Hbefore in *. simpl in *.
    destruct (String.eqb_spec (player_name r) p) as [E | E].
    + rewrite E, string_leb_refl. simpl. f_equal. exact IH.
    + destruct (String.leb (player_name r) p) eqn:Erp; simpl.
      * exfalso. apply E. apply String.leb_antisym; assumption.
      * assert (Hg : get_group df p = []).
        { apply filter_none. intros x Hx. apply String.eqb_neq. intros Exp.
          specialize (Hall x Hx). rewrite Exp in Hall. congruence. }
        rewrite Hg in *. simpl in *. f_equal. exact IH.
  - destruct (String.eqb_spec (player_name r) p) as [E | E].
    + rewrite E, string_leb_refl in Epr. discriminate.
    + destruct (String.leb_total p (player_name r)) as [H | H]; [congruence|].
      rewrite H. simpl. f_equal. exact IH.
Qed.

Lemma group_sorted_by_date (df : list Row) (p : string) :
  StronglySorted row_le df -> StronglySorted date_le (get_group df p).
Proof.
  intros Hs.
  assert (Hg : StronglySorted row_le (get_group df p))
    by (apply strongly_sorted_filter; exact Hs).
  assert (Hp : Forall (fun r => player_name r = p) (get_group df p)).
  { apply Forall_forall. intros r Hr. apply get_group_In in Hr. tauto. }
  induction Hg as [| r g Hg IH Hall]; constructor.
  - apply IH. inversion Hp; assumption.
  - inversion Hp as [| ? ? Hr Hrest]; subst.
    rewrite Forall_forall in *. intros x Hx.
    specialize (Hall x Hx). unfold row_le, row_leb in Hall.
    rewrite (Hrest x Hx), String.eqb_refl in Hall. exact Hall.
Qed.

(** C7: the joined frame is ordered by player, then date (NaT last); a pass
    of the bounder on a frame so ordered is a filter in place and leaves it
    so ordered; hence in the frame handed to the windowed stage the rows of
    each player lie side by side, by ascending date. *)
Theorem C7_order_preserved (workload : list LoadRecord)
  (positions : list PositionRecord) (ms : list string) :
  StronglySorted row_le (sort_values_player_date (merge workload positions)) /\
  (forall df metric k,
      StronglySorted row_le df ->
      remove_extreme_highs df metric k = filter (kept df metric k) df /\
      StronglySorted row_le (remove_extreme_highs df metric k)) /\
  StronglySorted row_le
    (bound_all ms (sort_values_player_date (merge workload positions))) /\
  (forall p,
      (exists above below,
          bound_all ms (sort_values_player_date (merge workload positions))
          = above
            ++ get_group (bound_all ms (sort_values_player_date
                                          (merge workload positions))) p
            ++ below) /\
      StronglySorted date_le
        (get_group (bound_all ms (sort_values_player_date
                                    (merge workload positions))) p)).
Proof.
  pose proof (sort_values_player_date_sorted (merge workload positions)) as Hjoin.
  pose proof (bound_all_sorted ms _ Hjoin) as Hbound.
  split; [exact Hjoin|]. split; [|split; [exact Hbound|]].
  - intros df metric k Hs. split.
    + apply remove_extreme_highs_filter. exact Hs.
    + apply remove_extreme_highs_sorted. exact Hs.
  - intros p. split.
    + eexists. eexists. apply group_contiguous.
      eapply strongly_sorted_impl; [apply row_le_player_le | exact Hbound].
    + apply group_sorted_by_date. exact Hbound.
Qed.

(** C7 at a joined frame: the pass for DSL keeps it ordered. *)
Lemma C7_order_preserved_witness :
  StronglySorted row_le
    (remove_extreme_highs
       (sort_values_player_date (merge workload_cy_dee registry_cy_dee))
       "DSL" default_multiplier).
Proof.
  destruct (C7_order_preserved workload_cy_dee registry_cy_dee metrics)
    as [Hs [Hpass _]].
  apply (Hpass _ "DSL" default_multiplier Hs).
Defined.

(** C9, as stated, fails on Cy's and Dee's snapshots: a metric that is not
    configured makes the callback raise KeyError instead of returning, and
    a position no athlete has empties the chart instead of leaving it
    unfiltered. *)
Lemma C9_unknown_selection_counterexample :
  update_chart metrics snapshots_cy_dee (Some "FW") "Total Distance"
  = KeyError "Acute_Total Distance" /\
  ~ (exists bars,
        update_chart metrics snapshots_cy_dee None "Total Distance" = Returned bars) /\
  update_chart metrics snapshots_cy_dee (Some "DF") "DSL" = Returned [] /\
  update_chart metrics snapshots_cy_dee (Some "DF") "DSL"
  <> update_chart metrics snapshots_cy_dee None "DSL".
Proof.
  split; [vm_compute; reflexivity|].
  split; [intros [bars H]; vm_compute in H; discriminate|].
  split; [vm_compute; reflexivity|].
  vm_compute. discriminate.
Qed.

(** C9, amended: for a configured metric the callback returns a chart for
    every position selection; an absent or empty selection filters nothing,
    any other selection keeps only the athletes of exactly that position, so
    a position no athlete has gives the empty chart; for a metric that is
    not configured the callback raises KeyError. *)
Theorem C9_callback_selection (ms : list string) (latest : list WRow)
  (selected_position : option string) (selected_metric : string) :
  (In selected_metric ms ->
   exists bars,
     update_chart ms latest selected_position selected_metric = Returned bars /\
     (selected_position = None \/ selected_position = Some "" ->
      Returned bars = update_chart ms latest None selected_metric) /\
     (forall p, selected_position = Some p -> p <> "" ->
                Returned bars
                = update_chart ms (filter (position_is p) latest) None selected_metric) /\
     (forall p, selected_position = Some p -> p <> "" ->
                (forall w, In w latest -> position (w_row w) <> Some p) ->
                bars = [])) /\
  (~ In selected_metric ms ->
   update_chart ms latest selected_position selected_metric
   = KeyError (String.append "Acute_" selected_metric)).
Proof.
  split.
  - intros Hm. apply existsb_eqb_In in Hm.
    unfold update_chart. rewrite Hm. simpl.
    eexists. split; [reflexivity|]. split; [|split].
    + intros [-> | ->]; reflexivity.
    + intros p -> Hp. apply String.eqb_neq in Hp. rewrite Hp. reflexivity.
    + intros p -> Hp Hnone. apply String.eqb_neq in Hp. rewrite Hp.
      rewrite (filter_none (position_is p) latest); [reflexivity|].
      intros w Hw. unfold position_is.
      destruct (position (w_row w)) as [q|] eqn:E; [|reflexivity].
      apply String.eqb_neq. intros ->. apply (Hnone w Hw). exact E.
  - intros Hn. unfold update_chart.
    destruct (existsb (String.eqb selected_metric) ms) eqn:E; [|reflexivity].
    apply existsb_eqb_In in E. contradiction.
Qed.

(** C9 on Cy's and Dee's snapshots, selecting the forwards. *)
Lemma C9_callback_selection_witness :
  exists bars,
    update_chart metrics snapshots_cy_dee (Some "FW") "DSL" = Returned bars /\
    map bar_y bars = ["Cy"].
Proof.
  assert (Hm : In "DSL" metrics) by (right; left; reflexivity).
  destruct (C9_callback_selection metrics snapshots_cy_dee (Some "FW") "DSL")
    as [H _].
  destruct (H Hm) as [bars [Hb _]].
  exists bars. split; [exact Hb|].
  vm_compute in Hb. inversion Hb. reflexivity.
Defined.

(** * Further properties of the code *)

(** ** The join, line 15 *)

(** The rows of the joined frame. *)
Lemma merge_In (workload : list LoadRecord)
  (positions : list PositionRecord) (r : Row) :
  In r (merge workload positions) <->
  (exists p, In p positions /\
             (forall l, In l workload -> load_player l <> pos_player p) /\
             r = unmatched_row p) \/
  (exists p l, In p positions /\ In l workload /\
               load_player l = pos_player p /\ r = join_row p l).
Proof.
  unfold merge. rewrite in_flat_map. split.
  - intros [p [Hp Hr]].
    destruct (filter (fun l => String.eqb (load_player l) (pos_player p)) workload)
      as [| l0 ls] eqn:E.
    + left. exists p. destruct Hr as [<- | []].
      split; [exact Hp|]. split; [|reflexivity].
      intros l Hl Heq.
      assert (Hin : In l (filter (fun l => String.eqb (load_player l) (pos_player p))
                                 workload))
        by (apply filter_In; split; [exact Hl | apply String.eqb_eq; exact Heq]).
      rewrite E in Hin. destruct Hin.
    + right. apply in_map_iff in Hr. destruct Hr as [l [<- Hl]].
      rewrite <- E in Hl. apply filter_In in Hl. destruct Hl as [Hl Heq].
      apply String.eqb_eq in Heq. exists p, l. auto.
  - intros [[p [Hp [Hnone ->]]] | [p [l [Hp [Hl [Heq ->]]]]]]; exists p;
      (split; [exact Hp|]).
    + rewrite filter_none; [left; reflexivity|].
      intros l Hl. apply String.eqb_neq. apply Hnone. exact Hl.
    + assert (Hin : In l (filter (fun l => String.eqb (load_player l) (pos_player p))
                                 workload))
        by (apply filter_In; split; [exact Hl | apply String.eqb_eq; exact Heq]).
      destruct (filter (fun l => String.eqb (load_player l) (pos_player p)) workload)
        as [| l0 ls]; [destruct Hin|].
      apply in_map. exact Hin.
Qed.

(** X1: the right join, row by row.  A row of the joined frame is either
    the row of missing cells of a registry record that no load record
    matches, or a load record joined to a registry record of the same
    player; so every registry record is kept and a load record of a player
    outside the registry is dropped. *)
Theorem X1_merge_right_join (workload : list LoadRecord)
  (positions : list PositionRecord) (r : Row) :
  In r (merge workload positions) <->
  (exists p, In p positions /\
             (forall l, In l workload -> load_player l <> pos_player p) /\
             r = unmatched_row p) \/
  (exists p l, In p positions /\ In l workload /\
               load_player l = pos_player p /\ r = join_row p l).
Proof.
  apply merge_In.
Qed.

(** ** The sort, line 18 *)

Lemma same_key_leb (a b : Row) :
  same_key a b = row_leb a b && row_leb b a.
Proof.
  unfold same_key, row_leb. rewrite (String.eqb_sym (player_name b)).
  destruct (String.eqb_spec (player_name a) (player_name b)) as [E | E]; simpl.
  - destruct (session_date a) as [x|], (session_date b) as [y|]; simpl; auto.
    destruct (Z.eqb_spec x y) as [-> | Hne].
    + rewrite Z.leb_refl. reflexivity.
    + destruct (Z.leb_spec x y), (Z.leb_spec y x); simpl; auto; lia.
  - destruct (String.leb (player_name a) (player_name b)) eqn:E1; simpl; auto.
    destruct (String.leb (player_name b) (player_name a)) eqn:E2; simpl; auto.
    exfalso. apply E. apply String.leb_antisym; assumption.
Qed.

(** Inserting a row leaves the rows of each key in the order they had. *)
Lemma insert_sorted_stable (z x : Row) (l : list Row) :
  filter (same_key z) (insert_sorted row_leb x l) = filter (same_key z) (x :: l).
Proof.
  induction l as [| y l IH]; [reflexivity|].
  simpl insert_sorted.
  destruct (row_leb x y) eqn:Exy; [reflexivity|].
  cbn [filter].
  assert (Hstep : filter (same_key z) (insert_sorted row_leb x l)
                  = if same_key z x then x :: filter (same_key z) l
                    else filter (same_key z) l)
    by (rewrite IH; reflexivity).
  rewrite Hstep.
  destruct (same_key z x) eqn:Ezx; [|destruct (same_key z y); reflexivity].
  assert (Ezy : same_key z y = false).
  { apply not_true_is_false. intros Ezy.
    rewrite same_key_leb in Ezx, Ezy.
    apply andb_prop in Ezx. apply andb_prop in Ezy.
    destruct Ezx as [_ Hxz], Ezy as [Hzy _].
    rewrite (row_leb_trans x z y Hxz Hzy) in Exy. discriminate. }
  rewrite Ezy. reflexivity.
Qed.

(** X2: the sort by player and date loses no row and is stable: the rows
    that share a player and a date come out in the order the join gave
    them. *)
Theorem X2_sort_values_stable (df : list Row) (z : Row) :
  Permutation df (sort_values_player_date df) /\
  filter (same_key z) (sort_values_player_date df) = filter (same_key z) df.
Proof.
  split; [apply stable_sort_perm|].
  unfold sort_values_player_date, stable_sort.
  induction df as [| x df IH]; [reflexivity|].
  simpl fold_right. rewrite insert_sorted_stable. simpl. rewrite IH. reflexivity.
Qed.

(** ** One pass of the bounder, lines 26-36 *)

Lemma strongly_sorted_app {A : Type} (R : A -> A -> Prop) (l1 l2 : list A) :
  StronglySorted R l1 -> StronglySorted R l2 ->
  (forall a b, In a l1 -> In b l2 -> R a b) ->
  StronglySorted R (l1 ++ l2).
Proof.
  induction 1 as [| x l1 Hs IH Hall]; simpl; intros H2 Hcross; [exact H2|].
  constructor.
  - apply IH; [exact H2 | intros; apply Hcross; auto].
  - rewrite Forall_forall in *. intros y Hy.
    apply in_app_or in Hy. destruct Hy as [Hy | Hy]; [apply Hall | apply Hcross]; auto.
Qed.

Lemma same_player_sorted (g : list Row) (p : string) :
  (forall r, In r g -> player_name r = p) -> StronglySorted player_le g.
Proof.
  induction g as [| r g IH]; intros H; constructor.
  - apply IH. intros; apply H; right; assumption.
  - apply Forall_forall. intros x Hx. unfold player_le.
    rewrite (H r (or_introl eq_refl)), (H x (or_intror Hx)).
    apply string_leb_refl.
Qed.

Lemma blocks_sorted (f : string -> list Row) (ks : list string) :
  StronglySorted key_lt ks ->
  (forall q r, In r (f q) -> player_name r = q) ->
  StronglySorted player_le (flat_map f ks).
Proof.
  intros Hs Hf. induction Hs as [| q ks Hs IH Hall]; simpl; [constructor|].
  apply strongly_sorted_app; [eapply same_player_sorted; apply Hf | exact IH |].
  intros a b Ha Hb. apply in_flat_map in Hb. destruct Hb as [q' [Hq' Hb]].
  rewrite Forall_forall in Hall. destruct (Hall q' Hq') as [Hle _].
  unfold player_le. rewrite (Hf q a Ha), (Hf q' b Hb). exact Hle.
Qed.

(** X3: whatever the order of the frame it is given, a pass returns the
    rows grouped by player, the players in ascending order. *)
Theorem X3_bounder_output_grouped (df : list Row) (metric : string) (k : Q) :
  StronglySorted player_le (remove_extreme_highs df metric k).
Proof.
  unfold remove_extreme_highs. apply blocks_sorted; [apply group_keys_sorted|].
  intros q r Hr. apply bound_group_In in Hr. destruct Hr as [Hr _].
  apply get_group_In in Hr. tauto.
Qed.

(** X4: a pass treats each player alone: two frames that hold the same rows
    of a player give the same rows of that player back, whatever rows of
    other players they hold. *)
Theorem X4_bounder_per_player (df1 df2 : list Row) (metric : string) (k : Q)
  (p : string) :
  get_group df1 p = get_group df2 p ->
  get_group (remove_extreme_highs df1 metric k) p
  = get_group (remove_extreme_highs df2 metric k) p.
Proof.
  intros H. rewrite !get_group_remove_extreme_highs, H. reflexivity.
Qed.

(** X4 with Ann's two rows alone and beside a row of Bea. *)
Lemma X4_bounder_per_player_witness :
  get_group (remove_extreme_highs frame_with_gap "DSL" default_multiplier) "Ann"
  = get_group (remove_extreme_highs
                 (mkRow "Bea" (Some 1%Z) [("DSL", Some 900)] None :: frame_with_gap)
                 "DSL" default_multiplier) "Ann".
Proof.
  apply X4_bounder_per_player. reflexivity.
Defined.

(** ** All passes, lines 38-39 *)

(** X7: the passes only take rows away, and a row that is left has a
    present cell for every metric bounded. *)
Theorem X7_bounded_rows_complete (ms : list string) (df : list Row) (r : Row) :
  In r (bound_all ms df) ->
  In r df /\ forall m, In m ms -> exists v, col m r = Some v.
Proof.
  intros Hr. split; [eapply bound_all_incl; exact Hr|].
  intros m Hm. pose proof (bound_all_notna ms df m r Hm Hr) as H.
  destruct (col m r) as [v|]; [eauto | congruence].
Qed.

(** X7 at the frame with a gap: the row left has both cells. *)
Lemma X7_bounded_rows_complete_witness :
  exists v, col "High Speed Running"
                (mkRow "Ann" (Some 2%Z)
                       [("High Speed Running", Some 10); ("DSL", Some 4)] (Some "GK"))
            = Some v.
Proof.
  assert (Hr : In (mkRow "Ann" (Some 2%Z)
                         [("High Speed Running", Some 10); ("DSL", Some 4)] (Some "GK"))
                  (bound_all metrics frame_with_gap))
    by (vm_compute; left; reflexivity).
  destruct (X7_bounded_rows_complete metrics frame_with_gap _ Hr) as [_ H].
  apply H. left. reflexivity.
Defined.

(** ** From the load file to the snapshots, lines 15-64 *)

Lemma latest_df_incl (sort_values_date : list WRow -> list WRow) (df : list WRow)
  (w : WRow) :
  (forall l, Permutation l (sort_values_date l)) ->
  In w (latest_df sort_values_date df) -> In w df.
Proof.
  intros Hperm Hw. unfold latest_df in Hw. apply tail1_incl in Hw.
  eapply Permutation_in; [apply Permutation_sym, Hperm | exact Hw].
Qed.

(** X8: with one metric to bound at least, a registry player without any
    load record has no snapshot: the row of missing cells the join gave him
    is dropped by the first pass. *)
Theorem X8_no_load_no_snapshot (sort_values_date : list WRow -> list WRow)
  (workload : list LoadRecord) (positions : list PositionRecord)
  (m : string) (ms : list string) (p : string) (w : WRow) :
  (forall l, Permutation l (sort_values_date l)) ->
  (forall l, In l workload -> load_player l <> p) ->
  In w (pipeline sort_values_date (m :: ms) workload positions) ->
  player_name (w_row w) <> p.
Proof.
  intros Hperm Hnone Hw Hp. unfold pipeline in Hw.
  apply (latest_df_incl _ _ _ Hperm) in Hw.
  assert (Hg : In w (get_wgroup (merged_df (m :: ms) workload positions) p))
    by (apply filter_In; split; [exact Hw | apply String.eqb_eq; exact Hp]).
  rewrite (no_load_no_row workload positions m ms p Hnone) in Hg. destruct Hg.
Qed.

(** X8 at Ann, who has no session: Bea's snapshot is not hers. *)
Lemma X8_no_load_no_snapshot_witness :
  exists w, In w (pipeline stable_sort_values_date metrics workload_bea registry_ann_bea) /\
            (player_name (w_row w) = "Ann" -> False).
Proof.
  pose (w := nth 0 (pipeline stable_sort_values_date metrics workload_bea
                             registry_ann_bea)
                 (mkW (unmatched_row (mkPos "" None)) [])).
  assert (Hw : In w (pipeline stable_sort_values_date metrics workload_bea
                              registry_ann_bea))
    by (vm_compute; left; reflexivity).
  exists w. split; [exact Hw|].
  apply (X8_no_load_no_snapshot stable_sort_values_date workload_bea registry_ann_bea
           "High Speed Running" ["DSL"] "Ann" w (stable_sort_perm wdate_leb)).
  - intros l Hl. simpl in Hl. destruct Hl as [<- | []]. simpl. discriminate.
  - exact Hw.
Defined.

(** ** The derived columns, lines 44-57 *)

Lemma lastn_short {A : Type} (n : nat) (l : list A) :
  (length l <= n)%nat -> lastn n l = l.
Proof.
  intros H. unfold lastn. replace (length l - n)%nat with 0%nat by lia. reflexivity.
Qed.

Lemma Qle_bool_compat (a b c d : Q) :
  a == b -> c == d -> Qle_bool a c = Qle_bool b d.
Proof.
  intros H1 H2.
  destruct (Qle_bool a c) eqn:E1, (Qle_bool b d) eqn:E2; try reflexivity.
  - apply Qle_bool_iff in E1. rewrite H1, H2 in E1.
    apply Qle_bool_iff in E1. congruence.
  - apply Qle_bool_iff in E2. rewrite <- H1, <- H2 in E2.
    apply Qle_bool_iff in E2. congruence.
Qed.

Lemma bar_color_one (r : Q) : r == 1 -> bar_color (Fin r) = grey.
Proof.
  intros H. unfold bar_color, xlt, xgt, Qlt_bool.
  rewrite (Qle_bool_compat (8 # 10) (8 # 10) r 1 (Qeq_refl _) H).
  rewrite (Qle_bool_compat r 1 (15 # 10) (15 # 10) H (Qeq_refl _)).
  reflexivity.
Qed.

(** X11: at each of the first seven rows of a player the two windows are
    the same rows, so the acute and chronic cells are equal; the ratio is
    then 1, or NaN where the mean is zero or missing, and the bar is grey. *)
Theorem X11_first_week_ratio_one (ms : list string) (df : list Row)
  (metric p : string) (i : nat) (w : WRow) :
  In metric ms ->
  nth_error (get_wgroup (add_acwr ms df) p) i = Some w ->
  (i < 7)%nat ->
  exists d,
    lookup metric (derived w) = Some d /\
    Acute d = Chronic d /\
    (ACWR d = NaN \/ exists r, ACWR d = Fin r /\ r == 1) /\
    bar_color (ACWR d) = grey.
Proof.
  intros Hm Hw Hi.
  destruct (add_acwr_group ms df p metric i w Hm Hw) as [_ Hd].
  exists (derived_at metric (get_group df p) i).
  split; [exact Hd|]. unfold derived_at. simpl.
  assert (Hsame : trailing_mean 7 metric (get_group df p) i
                  = trailing_mean 28 metric (get_group df p) i).
  { unfold trailing_mean.
    assert (Hlen : (length (map (col metric) (firstn (S i) (get_group df p))) <= 7)%nat).
    { rewrite length_map, length_firstn. lia. }
    rewrite !lastn_short by lia. reflexivity. }
  rewrite Hsame. split; [reflexivity|].
  destruct (trailing_mean 28 metric (get_group df p) i) as [x|];
    [| split; [left|]; reflexivity].
  unfold divide. destruct (Qeq_bool x 0) eqn:E0.
  - apply Qeq_bool_iff in E0. unfold Qlt_bool.
    rewrite (Qle_bool_compat x 0 0 0 E0 (Qeq_refl _)).
    rewrite (Qle_bool_compat 0 0 x 0 (Qeq_refl _) E0).
    simpl. split; [left|]; reflexivity.
  - apply Qeq_bool_neq in E0.
    assert (H1 : x / x == 1) by (field; exact E0).
    split; [right; exists (x / x); split; [reflexivity | exact H1]|].
    apply bar_color_one. exact H1.
Qed.

(** X11 at Cy's third session. *)
Lemma X11_first_week_ratio_one_witness :
  exists d,
    lookup "DSL"
           (derived (nth 2 (merged_df metrics workload_cy_dee registry_cy_dee)
                         (mkW (unmatched_row (mkPos "" None)) [])))
    = Some d /\
    bar_color (ACWR d) = grey.
Proof.
  assert (Hm : In "DSL" metrics) by (right; left; reflexivity).
  assert (Hw : nth_error
                 (get_wgroup
                    (add_acwr metrics
                       (bound_all metrics
                          (sort_values_player_date
                             (merge workload_cy_dee registry_cy_dee)))) "Cy") 2
               = Some (nth 2 (merged_df metrics workload_cy_dee registry_cy_dee)
                           (mkW (unmatched_row (mkPos "" None)) [])))
    by (vm_compute; reflexivity).
  assert (Hi : (2 < 7)%nat) by lia.
  destruct (X11_first_week_ratio_one metrics _ "DSL" "Cy" 2 _ Hm Hw Hi)
    as [d [Hd [_ [_ Hc]]]].
  exists d. split; [exact Hd | exact Hc].
Defined.

Lemma lookup_None_keys {A : Type} (k : string) (l : list (string * A)) :
  lookup k l = None <-> ~ In k (map fst l).
Proof.
  induction l as [| [k' v] l IH]; simpl; [tauto|].
  destruct (String.eqb_spec k k') as [-> | Hne].
  - split; [discriminate | intros H; exfalso; apply H; auto].
  - rewrite IH. split; [intros H [E | E]; [congruence | auto] | tauto].
Qed.

Lemma assign_columns_keys (metric : string) (df : list WRow) (w' : WRow) :
  In w' (assign_columns metric df) ->
  exists w, In w df /\ map fst (derived w') = metric :: map fst (derived w).
Proof.
  unfold assign_columns. intros H. apply in_map_iff in H.
  destruct H as [[w [a c]] [<- Hin]].
  apply in_combine_l in Hin. exists w. split; [exact Hin | reflexivity].
Qed.

Lemma add_acwr_keys (ms : list string) (df : list Row) (w : WRow) :
  In w (add_acwr ms df) -> map fst (derived w) = rev ms.
Proof.
  unfold add_acwr.
  assert (Hgen : forall ms acc done,
             (forall x, In x acc -> map fst (derived x) = done) ->
             forall x, In x (fold_left (fun acc metric => assign_columns metric acc)
                                       ms acc) ->
                       map fst (derived x) = rev ms ++ done).
  { clear. induction ms as [| m ms IH]; simpl; intros acc done H x Hx; [auto|].
    rewrite <- app_assoc. simpl.
    apply (IH (assign_columns m acc) (m :: done)); [|exact Hx].
    intros y Hy. apply assign_columns_keys in Hy. destruct Hy as [y0 [Hy0 ->]].
    rewrite (H y0 Hy0). reflexivity. }
  intros Hw.
  assert (Hstart : forall x, In x (map (fun r => mkW r []) df) ->
                             map fst (derived x) = []).
  { intros x Hx. apply in_map_iff in Hx. destruct Hx as [r [<- _]]. reflexivity. }
  rewrite (Hgen ms _ [] Hstart w Hw). apply app_nil_r.
Qed.

(** X13: the loop over the metrics neither drops nor reorders a row, and
    gives every row the derived columns of the metrics of the list and of
    no other: looking up any other metric's columns finds nothing. *)
Theorem X13_derived_columns_exact (ms : list string) (df : list Row) (w : WRow)
  (m : string) :
  In w (add_acwr ms df) ->
  map w_row (add_acwr ms df) = df /\
  (lookup m (derived w) = None <-> ~ In m ms).
Proof.
  intros Hw. split; [apply add_acwr_rows|].
  rewrite lookup_None_keys, (add_acwr_keys ms df w Hw), <- in_rev. reflexivity.
Qed.

(** X13 at Ann's frame: no column for a metric that is not configured. *)
Lemma X13_derived_columns_exact_witness :
  lookup "Total Distance"
         (derived (nth 0 (add_acwr metrics frame_with_gap)
                       (mkW (unmatched_row (mkPos "" None)) [])))
  = None.
Proof.
  assert (Hw : In (nth 0 (add_acwr metrics frame_with_gap)
                       (mkW (unmatched_row (mkPos "" None)) []))
                  (add_acwr metrics frame_with_gap))
    by (vm_compute; left; reflexivity).
  destruct (X13_derived_columns_exact metrics frame_with_gap _ "Total Distance" Hw)
    as [_ [_ H]].
  apply H. simpl. intros [E | [E | []]]; discriminate.
Defined.

(** ** The snapshots, lines 60-64 *)

Lemma tail1_players_NoDup (df : list WRow) :
  NoDup (map (fun w => player_name (w_row w)) (tail1 df)).
Proof.
  induction df as [| w df IH]; simpl; [constructor|].
  destruct (existsb (fun w' => String.eqb (player_name (w_row w'))
                                          (player_name (w_row w))) df) eqn:Ex;
    [exact IH|].
  simpl. constructor; [|exact IH].
  intros Hin. apply in_map_iff in Hin. destruct Hin as [w' [Hp Hw']].
  apply tail1_incl in Hw'.
  assert (Hex : existsb (fun w' => String.eqb (player_name (w_row w'))
                                              (player_name (w_row w))) df = true).
  { apply existsb_exists. exists w'. split; [exact Hw' | apply String.eqb_eq; exact Hp]. }
  congruence.
Qed.

Lemma tail1_sorted (R : WRow -> WRow -> Prop) (df : list WRow) :
  StronglySorted R df -> StronglySorted R (tail1 df).
Proof.
  induction 1 as [| w df Hs IH Hall]; simpl; [constructor|].
  destruct (existsb _ df); [exact IH|].
  constructor; [exact IH|].
  rewrite Forall_forall in *. intros x Hx. apply Hall. apply tail1_incl. exact Hx.
Qed.

Lemma tail1_players (df : list WRow) (p : string) :
  In p (map (fun w => player_name (w_row w)) (tail1 df))
  <-> In p (map (fun w => player_name (w_row w)) df).
Proof.
  split.
  - intros H. apply in_map_iff in H. destruct H as [w [Hp Hw]].
    apply in_map_iff. exists w. split; [exact Hp | apply tail1_incl; exact Hw].
  - intros H. apply in_map_iff in H. destruct H as [w [Hp Hw]].
    assert (Hne : get_wgroup df p <> []).
    { intros E.
      assert (Hin : In w (get_wgroup df p))
        by (apply filter_In; split; [exact Hw | apply String.eqb_eq; exact Hp]).
      rewrite E in Hin. destruct Hin. }
    destruct (lastn_1_last _ Hne) as [before [x [_ Hlast]]].
    assert (Hx : In x (get_wgroup (tail1 df) p))
      by (rewrite tail1_group, Hlast; left; reflexivity).
    apply filter_In in Hx. destruct Hx as [Hx Hxp]. apply String.eqb_eq in Hxp.
    apply in_map_iff. exists x. auto.
Qed.

(** X14: the snapshots are rows of the frame, one for each player that has
    a row and no two of a same player, listed by ascending date with NaT
    last; there are as many as distinct players in the frame. *)
Theorem X14_snapshots_one_per_player (sort_values_date : list WRow -> list WRow)
  (df : list WRow) :
  (forall l, Permutation l (sort_values_date l)) ->
  (forall l, StronglySorted wdate_le (sort_values_date l)) ->
  (forall w, In w (latest_df sort_values_date df) -> In w df) /\
  NoDup (map (fun w => player_name (w_row w)) (latest_df sort_values_date df)) /\
  (forall p, In p (map (fun w => player_name (w_row w)) (latest_df sort_values_date df))
             <-> In p (map (fun w => player_name (w_row w)) df)) /\
  StronglySorted wdate_le (latest_df sort_values_date df) /\
  length (latest_df sort_values_date df) = length (group_keys (map w_row df)).
Proof.
  intros Hperm Hsorted.
  assert (Hplayers : forall p,
             In p (map (fun w => player_name (w_row w)) (latest_df sort_values_date df))
             <-> In p (map (fun w => player_name (w_row w)) df)).
  { intros p. unfold latest_df. rewrite tail1_players. split; intros H.
    - eapply Permutation_in; [|exact H].
      apply Permutation_map, Permutation_sym, Hperm.
    - eapply Permutation_in; [|exact H]. apply Permutation_map, Hperm. }
  split; [intros w; apply latest_df_incl; exact Hperm|].
  split; [apply tail1_players_NoDup|].
  split; [exact Hplayers|].
  split; [apply tail1_sorted, Hsorted|].
  rewrite <- (length_map (fun w => player_name (w_row w))).
  apply Permutation_length. apply NoDup_Permutation.
  - apply tail1_players_NoDup.
  - apply key_sorted_NoDup, group_keys_sorted.
  - intros p. rewrite Hplayers, group_keys_In. rewrite !in_map_iff. split.
    + intros [w [Hp Hw]]. exists (w_row w). split; [|exact Hp].
      apply in_map. exact Hw.
    + intros [r [Hr Hp]]. apply in_map_iff in Hr. destruct Hr as [w [<- Hw]].
      exists w. auto.
Qed.

(** X14 at Cy's and Dee's rows: two snapshots. *)
Lemma X14_snapshots_one_per_player_witness :
  length (latest_df stable_sort_values_date
                    (merged_df metrics workload_cy_dee registry_cy_dee))
  = 2%nat.
Proof.
  destruct (X14_snapshots_one_per_player stable_sort_values_date
              (merged_df metrics workload_cy_dee registry_cy_dee)
              (stable_sort_perm wdate_leb) stable_sort_values_date_sorted)
    as [_ [_ [_ [_ H]]]].
  rewrite H. vm_compute. reflexivity.
Defined.

(** ** The layout and the callback, lines 71-162 *)

Lemma unique_In (l : list string) (x : string) : In x (unique l) <-> In x l.
Proof.
  induction l as [| y l IH]; simpl; [tauto|].
  rewrite filter_In, IH.
  destruct (String.eqb_spec x y) as [-> | Hne]; simpl.
  - split; auto.
  - split; [intros [H | [H _]]; auto | intros [H | H]; [congruence | auto]].
Qed.

Lemma unique_NoDup (l : list string) : NoDup (unique l).
Proof.
  induction l as [| y l IH]; simpl; constructor.
  - rewrite filter_In. intros [_ H]. rewrite String.eqb_refl in H. discriminate.
  - apply NoDup_filter. exact IH.
Qed.

(** X15: the position dropdown offers each position of the registry once,
    and nothing else: no missing position, no value that no record has. *)
Theorem X15_position_options (positions : list PositionRecord) (s : string) :
  NoDup (position_options positions) /\
  (In s (position_options positions)
   <-> exists p, In p positions /\ pos_position p = Some s).
Proof.
  unfold position_options. split; [apply unique_NoDup|].
  rewrite unique_In, in_flat_map. split.
  - intros [p [Hp Hs]]. exists p. split; [exact Hp|].
    destruct (pos_position p) as [t|]; simpl in Hs; [|destruct Hs].
    destruct Hs as [-> | []]. reflexivity.
  - intros [p [Hp Hs]]. exists p. split; [exact Hp|]. rewrite Hs. left. reflexivity.
Qed.

Lemma index_of_nth (names : list string) (k : nat) (n : string) :
  NoDup names -> nth_error names k = Some n -> index_of n names = k.
Proof.
  intros Hnd. revert k.
  induction Hnd as [| x names Hx Hnd IH]; intros k Hk; [destruct k; discriminate|].
  destruct k as [| k]; simpl in *.
  - inversion Hk; subst. rewrite String.eqb_refl. reflexivity.
  - destruct (String.eqb_spec x n) as [-> | Hne].
    + exfalso. apply Hx. eapply nth_error_In. exact Hk.
    + f_equal. apply IH. exact Hk.
Qed.

Lemma NoDup_map_filter {A B : Type} (f : A -> B) (g : A -> bool) (l : list A) :
  NoDup (map f l) -> NoDup (map f (filter g l)).
Proof.
  induction l as [| x l IH]; simpl; intros H; [constructor|].
  inversion H as [| ? ? Hx Hnd]; subst.
  destruct (g x); simpl; [|apply IH; exact Hnd].
  constructor; [|apply IH; exact Hnd].
  intros Hin. apply Hx. apply in_map_iff in Hin. destruct Hin as [y [Hy Hin]].
  apply in_map_iff. exists y. split; [exact Hy|]. apply filter_In in Hin. tauto.
Qed.

Lemma chart_rows_players_NoDup (ms : list string) (latest : list WRow)
  (selected_position : option string) (selected_metric : string)
  (rows : list WRow) :
  NoDup (map (fun w => player_name (w_row w)) latest) ->
  chart_rows ms latest selected_position selected_metric = Returned rows ->
  NoDup (map (fun w => player_name (w_row w)) rows).
Proof.
  intros Hnd. unfold chart_rows.
  destruct (negb (existsb (String.eqb selected_metric) ms)); [discriminate|].
  intros E. inversion E; subst rows; clear E.
  apply NoDup_map_filter.
  destruct selected_position as [p|]; [|exact Hnd].
  destruct (String.eqb p ""); [exact Hnd|].
  apply NoDup_map_filter. exact Hnd.
Qed.

(** X18: in a chart drawn from snapshots, each chronic marker lies on the
    bar of its own row: the [k]-th marker is set at the chronic mean of the
    [k]-th row and spans the heights [k - 0.4 .. k + 0.4], since no two
    snapshots carry the same player name. *)
Theorem X18_chronic_marker_on_own_bar (sort_values_date : list WRow -> list WRow)
  (ms : list string) (df : list WRow) (selected_position : option string)
  (selected_metric : string) (rows : list WRow) (k : nat) (w : WRow) :
  chart_rows ms (latest_df sort_values_date df) selected_position selected_metric
  = Returned rows ->
  nth_error rows k = Some w ->
  nth_error (chronic_shapes selected_metric rows) k
  = Some (mkShape (chronic_line (bar_of selected_metric w))
                  (chronic_line (bar_of selected_metric w))
                  (inject_Z (Z.of_nat k) - (4 # 10))
                  (inject_Z (Z.of_nat k) + (4 # 10))).
Proof.
  intros Hrows Hk.
  assert (Hnd : NoDup (map (fun w => player_name (w_row w)) rows)).
  { eapply chart_rows_players_NoDup; [|exact Hrows].
    unfold latest_df. apply tail1_players_NoDup. }
  unfold chronic_shapes. rewrite nth_error_map, Hk. simpl.
  rewrite (index_of_nth _ k (player_name (w_row w)) Hnd);
    [reflexivity|].
  rewrite nth_error_map, Hk. reflexivity.
Qed.

(** X18 at Cy's and Dee's snapshots: Cy's marker is the second one. *)
Lemma X18_chronic_marker_on_own_bar_witness :
  exists s, nth_error (chronic_shapes "DSL" snapshots_cy_dee) 1 = Some s /\
            shape_y0 s == 6 # 10.
Proof.
  pose (w := nth 1 snapshots_cy_dee (mkW (unmatched_row (mkPos "" None)) [])).
  assert (Hrows : chart_rows metrics
                    (latest_df stable_sort_values_date
                               (merged_df metrics workload_cy_dee registry_cy_dee))
                    None "DSL"
                  = Returned snapshots_cy_dee) by (vm_compute; reflexivity).
  assert (Hk : nth_error snapshots_cy_dee 1 = Some w) by (vm_compute; reflexivity).
  eexists. split.
  - exact (X18_chronic_marker_on_own_bar stable_sort_values_date metrics _ None
             "DSL" snapshots_cy_dee 1 w Hrows Hk).
  - simpl. reflexivity.
Defined.

(** ** Windows count rows, not days *)

Lemma get_group_redate (f : Row -> option Z) (l : list Row) (p : string) :
  get_group (map (redate f) l) p = map (redate f) (get_group l p).
Proof.
  unfold get_group. induction l as [| r l IH]; simpl; [reflexivity|].
  destruct (String.eqb (player_name r) p); simpl; rewrite IH; reflexivity.
Qed.

Lemma col_redate (f : Row -> option Z) (m : string) (l : list Row) :
  map (col m) (map (redate f) l) = map (col m) l.
Proof.
  rewrite map_map. reflexivity.
Qed.

Lemma rolling_mean_redate (f : Row -> option Z) (window : nat) (m : string)
  (df : list Row) :
  forall before,
    rolling_mean window m (map (redate f) before) (map (redate f) df)
    = rolling_mean window m before df.
Proof.
  induction df as [| r df IH]; intros before; simpl; [reflexivity|].
  change [redate f r] with (map (redate f) [r]).
  rewrite <- map_app, IH, get_group_redate, col_redate. reflexivity.
Qed.

Lemma combine_map_l {A B C : Type} (g : A -> C) (l : list A) (l' : list B) :
  combine (map g l) l' = map (fun '(a, b) => (g a, b)) (combine l l').
Proof.
  revert l'. induction l as [| a l IH]; intros [| b l']; simpl; try reflexivity.
  rewrite IH. reflexivity.
Qed.

Lemma assign_columns_redate (f : Row -> option Z) (m : string) (df : list WRow) :
  assign_columns m (map (fun w => mkW (redate f (w_row w)) (derived w)) df)
  = map (fun w => mkW (redate f (w_row w)) (derived w)) (assign_columns m df).
Proof.
  unfold assign_columns.
  rewrite (map_map _ w_row df). simpl.
  rewrite <- (map_map w_row (redate f) df).
  rewrite !(rolling_mean_redate f _ m (map w_row df) []).
  rewrite combine_map_l, !map_map.
  apply map_ext. intros [w [a c]]. reflexivity.
Qed.

(** X19: the derived cells do not depend on the session dates: with the
    dates of the rows replaced in any way, the rows left in their order, the
    loop assigns to each row the cells it assigned before.  A gap of days
    between two sessions does not change a window. *)
Theorem X19_windows_ignore_dates (f : Row -> option Z) (ms : list string)
  (df : list Row) :
  add_acwr ms (map (redate f) df)
  = map (fun w => mkW (redate f (w_row w)) (derived w)) (add_acwr ms df).
Proof.
  unfold add_acwr.
  assert (Hstart : map (fun r => mkW r []) (map (redate f) df)
                   = map (fun w => mkW (redate f (w_row w)) (derived w))
                         (map (fun r => mkW r []) df))
    by (rewrite !map_map; reflexivity).
  rewrite Hstart.
  generalize (map (fun r => mkW r []) df) as acc.
  induction ms as [| m ms IH]; intros acc; simpl; [reflexivity|].
  rewrite assign_columns_redate. apply IH.
Qed.

(** ** What a pass keeps *)

(** X20: the rows a pass returns are exactly the rows of the frame whose
    cell for the metric is present and at or under the bound of the row's
    player; a row whose cell is missing, or whose player has no present
    cell at all, is not returned. *)
Theorem X20_bounder_kept_rows (df : list Row) (metric : string) (k : Q) (r : Row) :
  In r (remove_extreme_highs df metric k) <->
  In r df /\
  exists v upper,
    col metric r = Some v /\
    upper_bound k (map (col metric) (get_group df (player_name r))) = Some upper /\
    v <= upper.
Proof.
  rewrite remove_extreme_highs_In. unfold kept. rewrite cell_le_Some. reflexivity.
Qed.
